(** * TermSurf: the page-render pipeline of [server.py]

    A shallow embedding of the projection, deduplication, compositing and
    image-quantisation code of the Telnet text browser, and the properties
    its specification states about them.

    Conventions of the embedding.
    - Python [int] is [Z].  Python [float] is IEEE 754 binary64, as the
      Standard Library specifies it ([SpecFloat], module [Binary64]): the
      true division of two [int] is the correctly rounded quotient, an
      [int] operand of [*] is converted, [int(f)] truncates toward zero,
      and the three raise as CPython does.  The quotient of [rect_iou],
      which the pipeline only compares with [0.65], is kept as the exact
      rational; [Binary64.rect_iou] evaluates it in binary64.
    - Python [str] is [string], a sequence of code points below 256.
    - An exception is a value of [exn]; code that can raise returns
      [result A]; [try/except Exception] is [try_except].
    - Playwright, requests, Pillow, CairoSVG, BeautifulSoup, urllib and
      textwrap are collaborators outside the repository: they are the
      fields of the record [Env].
    - The render loop mutates local accumulators; they are the fields of
      [Loop].  Its field [trace] is ghost state: it records the calls the
      loop makes to the canvas and to [_ascii_for], and nothing reads it. *)

From Stdlib Require Import ZArith QArith Qround List String Ascii Lia Bool.
From Stdlib Require Import Floats.SpecFloat.
From Stdlib Require Import Sorted.
From stdpp Require Import base gmap strings list pretty.

Local Open Scope Z_scope.

(** ** Python primitives *)

Module Py.

(** Exceptions carry their message, [str(e)]. *)
Definition exn := string.

Inductive result (A : Type) : Type :=
| Ok (a : A)
| Raise (e : exn).
Arguments Ok {A} a.
Arguments Raise {A} e.

Definition bind {A B} (m : result A) (k : A -> result B) : result B :=
  match m with
  | Ok a => k a
  | Raise e => Raise e
  end.

(** [try: body  except Exception as e: handler(e)] *)
Definition try_except {A} (body : result A) (handler : exn -> result A) : result A :=
  match body with
  | Ok a => Ok a
  | Raise e => handler e
  end.

Definition returns {A} (m : result A) : Prop := exists a, m = Ok a.

(** [int(f)] on a float: truncation toward zero. *)
Definition int (q : Q) : Z := Z.quot (Qnum q) (Zpos (Qden q)).

(** [round(f)]: nearest integer, ties to even. *)
Definition round (q : Q) : Z :=
  let fl := Qfloor q in
  let twice := (2 * (q - inject_Z fl))%Q in
  match Qcompare twice 1 with
  | Lt => fl
  | Gt => fl + 1
  | Eq => if Z.even fl then fl else fl + 1
  end.

Definition Qlt_bool (a b : Q) : bool := negb (Qle_bool b a).

(** *** Strings *)

Definition chars (s : string) : list ascii := list_ascii_of_string s.
Definition str (l : list ascii) : string := string_of_list_ascii l.
Definition len (s : string) : Z := Z.of_nat (String.length s).

Definition code (c : ascii) : N := N_of_ascii c.

(** [str.isspace] on code points below 256. *)
Definition isspace (c : ascii) : bool :=
  let n := code c in
  ((9 <=? n) && (n <=? 13) || (28 <=? n) && (n <=? 32)
   || (n =? 133) || (n =? 160))%N.

(** Line boundaries of [str.splitlines] below 256, [\r] apart. *)
Definition is_linebreak (c : ascii) : bool :=
  let n := code c in
  ((n =? 10) || (n =? 11) || (n =? 12) || (n =? 28) || (n =? 29)
   || (n =? 30) || (n =? 133))%N.

Definition is_cr (c : ascii) : bool := (code c =? 13)%N.
Definition is_lf (c : ascii) : bool := (code c =? 10)%N.

Fixpoint lstrip_by (p : ascii -> bool) (l : list ascii) : list ascii :=
  match l with
  | c :: l' => if p c then lstrip_by p l' else l
  | [] => []
  end.

Definition rstrip_by (p : ascii -> bool) (l : list ascii) : list ascii :=
  rev (lstrip_by p (rev l)).

Definition rstrip (s : string) : string := str (rstrip_by isspace (chars s)).
Definition strip (s : string) : string :=
  str (rstrip_by isspace (lstrip_by isspace (chars s))).

(** [s.strip(ch)] for a one-character argument. *)
Definition strip_char (ch : ascii) (s : string) : string :=
  let p c := (code c =? code ch)%N in
  str (rstrip_by p (lstrip_by p (chars s))).

(** [s.splitlines()]: [cur] is the line being read, reversed. *)
Fixpoint splitlines_aux (l : list ascii) (cur : list ascii) : list string :=
  match l with
  | [] => match cur with [] => [] | _ => [str (rev cur)] end
  | c :: l' =>
      if is_cr c then
        match l' with
        | d :: l'' =>
            if is_lf d then str (rev cur) :: splitlines_aux l'' []
            else str (rev cur) :: splitlines_aux l' []
        | [] => [str (rev cur)]
        end
      else if is_linebreak c then str (rev cur) :: splitlines_aux l' []
      else splitlines_aux l' (c :: cur)
  end.

Definition splitlines (s : string) : list string := splitlines_aux (chars s) [].

(** [sep.join(parts)] *)
Fixpoint join (sep : string) (parts : list string) : string :=
  match parts with
  | [] => EmptyString
  | [p] => p
  | p :: rest => p +:+ sep +:+ join sep rest
  end.

(** [needle in hay] *)
Fixpoint str_in (needle hay : string) : bool :=
  if String.prefix needle hay then true
  else match hay with
       | EmptyString => false
       | String _ hay' => str_in needle hay'
       end.

Definition startswith (s pre : string) : bool := String.prefix pre s.
Definition endswith (s suf : string) : bool :=
  String.prefix (str (rev (chars suf))) (str (rev (chars s))).

(** [s[:n]] *)
Definition upto (n : Z) (s : string) : string :=
  if n <? 0 then str (take (String.length s - Z.to_nat (- n)) (chars s))
  else str (take (Z.to_nat n) (chars s)).

(** [s[4:-1]] *)
Definition slice_4_m1 (s : string) : string :=
  str (drop 4 (take (String.length s - 1) (chars s))).

Definition lower_char (c : ascii) : ascii :=
  let n := code c in
  if ((65 <=? n) && (n <=? 90))%N then ascii_of_N (n + 32) else c.

(** [s.lower()], on the ASCII letters. *)
Definition lower (s : string) : string := str (map lower_char (chars s)).

Definition nonempty (s : string) : bool :=
  match s with EmptyString => false | _ => true end.

(** [s in (t1, t2, ...)] *)
Definition among (s : string) (ts : list string) : bool :=
  existsb (String.eqb s) ts.

(** [l[i]] as Python resolves the index: the position it denotes, or
    [IndexError]. *)
Definition index {A} (l : list A) (i : Z) : result nat :=
  let n := Z.of_nat (length l) in
  if (0 <=? i) && (i <? n) then Ok (Z.to_nat i)
  else if (i <? 0) && (- n <=? i) then Ok (Z.to_nat (n + i))
  else Raise "list index out of range".

End Py.

Import Py.

Notation "x <- m ;; k" := (Py.bind m (fun x => k))
  (at level 100, m at next level, right associativity, only parsing).

(** ** Settings read by the pipeline (module globals of [server.py]) *)

Record Config := {
  ROW_ASPECT : Q;
  AUTO_IMG_MAX : Z;
  ASCII_IMG_W : Z;
}.

(** The defaults of the source: 0.52, 3 and 68. *)
Definition default_config : Config :=
  {| ROW_ASPECT := 52 # 100; AUTO_IMG_MAX := 3; ASCII_IMG_W := 68 |}.

(** ** Rectangle overlap *)

Definition Rect : Type := Z * Z * Z * Z.

(** The integer part of [rect_iou]: the overlapping area and the divisor
    [max(1, area_a + area_b - inter)]. *)
Definition iou_parts (a b : Rect) : Z * Z :=
  let '(ax, ay, aw, ah) := a in
  let '(bx, by_, bw, bh) := b in
  let ax2 := ax + aw in let ay2 := ay + ah in
  let bx2 := bx + bw in let by2 := by_ + bh in
  let ix1 := Z.max ax bx in let iy1 := Z.max ay by_ in
  let ix2 := Z.min ax2 bx2 in let iy2 := Z.min ay2 by2 in
  let iw := Z.max 0 (ix2 - ix1) in let ih := Z.max 0 (iy2 - iy1) in
  let inter := iw * ih in
  let area_a := aw * ah in
  let area_b := bw * bh in
  (inter, Z.max 1 (area_a + area_b - inter)).

Definition rect_iou (a b : Rect) : Q :=
  let '(inter, d) := iou_parts a b in
  if inter =? 0 then 0%Q
  else (inject_Z inter / inject_Z d)%Q.

(** A rectangle covers the half-open cell range [x, x+w) x [y, y+h). *)
Definition covers (r : Rect) (px py : Z) : Prop :=
  let '(x, y, w, h) := r in x <= px < x + w /\ y <= py < y + h.

Definition disjoint_rects (a b : Rect) : Prop :=
  forall px py, ~ (covers a px py /\ covers b px py).

(** ** Python floats: IEEE 754 binary64 *)

Module Binary64.

Definition prec : Z := 53.
Definition emax : Z := 1024.

(** The float nearest to an integer (ties to even). *)
Definition of_int (z : Z) : spec_float :=
  match z with
  | Z0 => S754_zero false
  | Zpos _ => binary_normalize prec emax z 0 false
  | Zneg _ => binary_normalize prec emax z 0 true
  end.

Definition div (a b : spec_float) : spec_float := SFdiv prec emax a b.
Definition mul (a b : spec_float) : spec_float := SFmul prec emax a b.

(** [int(f)] *)
Definition to_int (f : spec_float) : option Z :=
  match f with
  | S754_zero _ => Some 0
  | S754_finite s m e =>
      let mag := match e with
                 | Zneg k => Z.shiftr (Zpos m) (Zpos k)
                 | _ => Z.shiftl (Zpos m) e
                 end in
      Some (if s then - mag else mag)
  | _ => None
  end.

(** An integer as the unrounded value [m * 2^0]. *)
Definition exact (z : Z) : spec_float :=
  match z with
  | Z0 => S754_zero false
  | Zpos p => S754_finite false p 0
  | Zneg p => S754_finite true p 0
  end.

(** The float nearest to the quotient of two integers: one rounding, of
    the exact quotient. *)
Definition quotient (a b : Z) : spec_float := div (exact a) (exact b).

(** The float nearest to a decimal setting: [float("0.52")]. *)
Definition of_Q (q : Q) : spec_float := quotient (Qnum q) (Zpos (Qden q)).


(** [rect_iou] *)
Definition rect_iou (a b : Rect) : spec_float :=
  let '(inter, d) := iou_parts a b in
  if inter =? 0 then S754_zero false else div (of_int inter) (of_int d).

(** [int(v * (width / vp_w))] and [int(v * ((width / vp_w) * ROW_ASPECT))],
    for ints below 2^53. *)
Definition project_x (width_ vp_w v : Z) : option Z :=
  to_int (mul (of_int v) (div (of_int width_) (of_int vp_w))).

(** A zero or a finite float in canonical form, of sign [s] and of
    magnitude below [2^k]. *)
Definition within (s : bool) (k : Z) (f : spec_float) : Prop :=
  match f with
  | S754_zero s' => s' = s
  | S754_finite s' m e =>
      s' = s /\ fexp prec emax (Zpos (digits2_pos m) + e) = e
      /\ Zpos (digits2_pos m) + e <= k
  | _ => False
  end.

End Binary64.

(** The operations of the pipeline on floats that can raise. *)

(** The conversion of the [int] operand of [int * float]. *)
Definition float_of_int (z : Z) : result spec_float :=
  match Binary64.of_int z with
  | S754_infinity _ => Raise "OverflowError: int too large to convert to float"
  | f => Ok f
  end.

(** [a / b] on two [int]. *)
Definition truediv (a b : Z) : result spec_float :=
  if b =? 0 then Raise "ZeroDivisionError: division by zero"
  else
    match Binary64.quotient a b with
    | S754_infinity _ =>
        Raise "OverflowError: integer division result too large for a float"
    | f => Ok f
    end.

(** [int(f)] *)
Definition int_of_float (f : spec_float) : result Z :=
  match Binary64.to_int f with
  | Some z => Ok z
  | None =>
      match f with
      | S754_nan => Raise "ValueError: cannot convert float NaN to integer"
      | _ => Raise "OverflowError: cannot convert float infinity to integer"
      end
  end.

(** [int(v * scale)] for an [int] [v] and a float [scale]. *)
Definition scaled (v : Z) (scale : spec_float) : result Z :=
  fv <- float_of_int v;;
  int_of_float (Binary64.mul fv scale).

(** [ROW_ASPECT = float(os.getenv("TEXT_ROW_ASPECT", "0.52"))] *)
Definition row_aspect (C : Config) : spec_float := Binary64.of_Q (ROW_ASPECT C).

(** ** Data model *)

Definition bytes : Type := list Byte.byte.

(** One element of the DOM snapshot: the dictionary built by the capture
    script, with the keys [tag x y w h z txt href src bg fw disp]. *)
Record Node := {
  n_tag : string;
  n_x : Z; n_y : Z; n_w : Z; n_h : Z; n_z : Z;
  n_txt : string;
  n_href : string;
  n_src : string;
  n_bg : string;
  n_fw : string;
  n_disp : string;
}.

(** A decoded single-channel image: [im.width], [im.height] and
    [im.getdata()], row after row. *)
Record Image := {
  im_width : Z;
  im_height : Z;
  im_data : list Z;
}.

(** What the code reads of a [requests] response. *)
Record Response := {
  r_status : Z;
  r_url : string;
  r_content : bytes;
  r_text : string;
  r_content_type : string;
}.

(** What the fallback renderer reads of a parsed document: the [src] of
    each [img], the [href] and stripped text of each [a], and
    [get_text("\n", strip=True)] after the script-like tags are removed. *)
Record Soup := {
  soup_imgs : list string;
  soup_anchors : list (string * string);
  soup_text : string;
}.

(** The collaborators outside the repository. *)
Record Env := {
  HAVE_PIL : bool;
  HAVE_CAIROSVG : bool;
  HAVE_PW : bool;
  (** [Image.open(io.BytesIO(b)).convert("L")] *)
  Image_open_L : bytes -> result Image;
  (** [im.resize((w, h))] *)
  Image_resize : Image -> Z -> Z -> result Image;
  (** [session.get(url, ...)] *)
  requests_get : string -> result Response;
  (** [cairosvg.svg2png(bytestring=data)] *)
  svg2png : bytes -> result bytes;
  (** The Playwright part of [snapshot_dom]: the node lists of the
      scrolled chunks and [page.url]. *)
  playwright_capture : string -> string -> result (list (list Node) * string);
  (** [textwrap.wrap(para, width=w, break_long_words=False,
      replace_whitespace=False)] *)
  textwrap_wrap : string -> Z -> list string;
  urljoin : string -> string -> string;
  urldefrag : string -> string;
  (** [urlparse(href).path] *)
  urlparse_path : string -> string;
  (** [to_unicode(r.content, r.text)] followed by [BeautifulSoup] and the
      removal of script, style, noscript, svg and iframe. *)
  parse_html : bytes -> string -> Soup;
}.

Definition nl : string := String (ascii_of_nat 10) EmptyString.
Definition dquote : ascii := ascii_of_nat 34.
Definition squote : ascii := ascii_of_nat 39.

(** ** [compress_blank] *)

Fixpoint compress_blank_aux (ls : list string) (prev : bool) : list string :=
  match ls with
  | [] => []
  | line :: rest =>
      let blank := negb (nonempty (strip line)) in
      if blank && prev then compress_blank_aux rest prev
      else line :: compress_blank_aux rest blank
  end.

Definition compress_blank (s : string) : string :=
  join nl (compress_blank_aux (splitlines s) false).

(** ** Image codec *)

Definition ASCII_RAMP : string := "@%#*+=-:. ".

(** [ASCII_RAMP[int(p/255*(len(ASCII_RAMP)-1))]] *)
Definition ramp_index (p : Z) : result Z :=
  q <- truediv p 255;;
  k <- float_of_int (len ASCII_RAMP - 1);;
  int_of_float (Binary64.mul q k).

Definition ramp_char (p : Z) : result ascii :=
  idx <- ramp_index p;;
  i <- Py.index (chars ASCII_RAMP) idx;;
  match chars ASCII_RAMP !! i with
  | Some c => Ok c
  | None => Raise "string index out of range"
  end.

Fixpoint map_result {A B} (f : A -> result B) (l : list A) : result (list B) :=
  match l with
  | [] => Ok []
  | a :: l' => b <- f a;; bs <- map_result f l';; Ok (b :: bs)
  end.

(** [[chars[i:i+w] for i in range(0, len(chars), w)]], for [w >= 1];
    [fuel] bounds the number of slices. *)
Fixpoint slices (fuel : nat) (w : nat) (l : list ascii) : list string :=
  match fuel with
  | O => []
  | S fuel' =>
      match l with
      | [] => []
      | _ => str (take w l) :: slices fuel' w (drop w l)
      end
  end.

(** The height the codec asks of the resampler:
    [max(1, int(im.height * (w / im.width) * ROW_ASPECT))]. *)
Definition ascii_height (C : Config) (im : Image) (w : Z) : result Z :=
  ratio <- truediv w (im_width im);;
  fh <- float_of_int (im_height im);;
  h <- int_of_float (Binary64.mul (Binary64.mul fh ratio) (row_aspect C));;
  Ok (Z.max 1 h).

(** The body of the [try] block of [img_bytes_to_ascii]. *)
Definition ascii_body (E : Env) (C : Config) (b : bytes) (width : Z) : result string :=
  im <- Image_open_L E b;;
  let w := Z.max 20 width in
  h <- ascii_height C im w;;
  im' <- Image_resize E im w h;;
  let pixels := im_data im' in
  cs <- map_result ramp_char pixels;;
  let lines := slices (length cs) (Z.to_nat w) cs in
  Ok (join nl lines +:+ nl).

Definition pillow_missing : string := "(Pillow not installed; ASCII image disabled)".

Definition conversion_error (e : exn) : string :=
  "(ASCII conversion error: " +:+ e +:+ " / If WEBP, ensure Pillow has WEBP support)".

Definition img_bytes_to_ascii (E : Env) (C : Config) (b : bytes) (width : Z)
  : result string :=
  if negb (HAVE_PIL E) then Ok (pillow_missing +:+ nl)
  else
    try_except (ascii_body E C b width)
      (fun e => Ok (conversion_error e +:+ nl)).

(** ** [fetch_bytes] *)

Definition raise_for_status (r : Response) : result unit :=
  if (400 <=? r_status r) && (r_status r <? 600) then Raise "HTTPError"
  else Ok tt.

Definition fetch_bytes (E : Env) (url : string) : result (bytes * string) :=
  r <- requests_get E url;;
  _ <- raise_for_status r;;
  let ctype := lower (r_content_type r) in
  let data := r_content r in
  if (str_in "svg" ctype || endswith (lower url) ".svg") && HAVE_CAIROSVG E then
    match svg2png E data with
    | Ok png => Ok (png, "image/png")
    | Raise _ => Ok (data, ctype)
    end
  else Ok (data, ctype).

(** ** [TermCanvas] *)

Record TermCanvas := {
  canvas_W : Z;
  canvas_lines : list (list ascii);
}.

Definition TermCanvas_init (width_cols : Z) : TermCanvas :=
  {| canvas_W := width_cols; canvas_lines := [] |}.

Definition space : ascii := " "%char.

Definition _ensure_rows (cv : TermCanvas) (rows : Z) : TermCanvas :=
  let missing := Z.to_nat (rows - Z.of_nat (length (canvas_lines cv))) in
  {| canvas_W := canvas_W cv;
     canvas_lines := canvas_lines cv
                     ++ replicate missing (replicate (Z.to_nat (canvas_W cv)) space) |}.

(** [self.lines[r][c] = ch], reached only when [0 <= c < self.W]. *)
Definition set_cell (cv : TermCanvas) (r c : Z) (ch : ascii) : result TermCanvas :=
  i <- Py.index (canvas_lines cv) r;;
  Ok {| canvas_W := canvas_W cv;
        canvas_lines := alter (fun row => <[Z.to_nat c := ch]> row) i (canvas_lines cv) |}.

(** [for i, ch in enumerate(s): c = left_col + i; if 0 <= c < self.W: ...] *)
Fixpoint write_chars (cv : TermCanvas) (r c : Z) (s : list ascii) : result TermCanvas :=
  match s with
  | [] => Ok cv
  | ch :: s' =>
      cv' <- (if (0 <=? c) && (c <? canvas_W cv) then set_cell cv r c ch else Ok cv);;
      write_chars cv' r (c + 1) s'
  end.

Fixpoint draw_rows (cv : TermCanvas) (r left_col : Z) (rows : list string)
  : result TermCanvas :=
  match rows with
  | [] => Ok cv
  | s :: rest =>
      cv' <- write_chars (_ensure_rows cv (r + 1)) r left_col (chars s);;
      draw_rows cv' (r + 1) left_col rest
  end.

(** The [wrapped] list of [draw_text_block]. *)
Definition wrapped_lines (E : Env) (width_cols : Z) (text : string) : list string :=
  flat_map
    (fun para =>
       let para := rstrip para in
       if nonempty para then
         match textwrap_wrap E para width_cols with
         | [] => [EmptyString]
         | ls => ls
         end
       else [EmptyString])
    (splitlines text).

(** The string [s] that [draw_text_block] writes for one wrapped line. *)
Definition painted_line (width_cols : Z) (bold : bool) (line : string) : string :=
  let s := if bold then "**" +:+ line +:+ "**" else line in
  upto width_cols s.

Definition draw_text_block (E : Env) (cv : TermCanvas)
  (top_row left_col width_cols : Z) (text : string) (bold : bool)
  : result TermCanvas :=
  if (width_cols <=? 5) || negb (nonempty text) then Ok cv
  else draw_rows cv top_row left_col
         (map (painted_line width_cols bold) (wrapped_lines E width_cols text)).

Definition draw_ascii_image (cv : TermCanvas) (top_row left_col : Z)
  (ascii_art : string) (max_w : Z) : result TermCanvas :=
  if negb (nonempty ascii_art) then Ok cv
  else draw_rows cv top_row left_col (map (upto max_w) (splitlines ascii_art)).

Definition TermCanvas_render (cv : TermCanvas) : string :=
  join nl (map (fun row => rstrip (str row)) (canvas_lines cv)).

(** ** [snapshot_dom] *)

(** The sort key [(z, y, x, h*w)], compared as Python compares tuples. *)
Definition key_lt (n m : Node) : bool :=
  let k n := [n_z n; n_y n; n_x n; n_h n * n_w n] in
  (fix lex (a b : list Z) : bool :=
     match a, b with
     | x :: a', y :: b' => if x <? y then true else if y <? x then false else lex a' b'
     | _, _ => false
     end) (k n) (k m).

(** [nodes.sort(key=...)] is stable: a node goes after the nodes whose
    key is not greater. *)
Fixpoint insert_node (n : Node) (sorted : list Node) : list Node :=
  match sorted with
  | [] => [n]
  | m :: rest => if key_lt n m then n :: sorted else m :: insert_node n rest
  end.

Definition sort_nodes (nodes : list Node) : list Node :=
  fold_left (fun acc n => insert_node n acc) nodes [].

Definition snapshot_dom (E : Env) (url ua : string) : result (list Node * string) :=
  if negb (HAVE_PW E) then Raise "Playwright not found"
  else
    captured <- playwright_capture E url ua;;
    let '(chunks_, final_url) := captured in
    Ok (sort_nodes (concat chunks_), final_url).

(** ** [BrowserSession] *)

Record Session := {
  user_agent : string;
  width : Z;
  js_mode : bool;
  auto_image : bool;
  filter_icons : bool;
  current_url : option string;
  full_text : string;
  links : list string;
  images : list string;
  history : list string;
  future : list string;
}.

Definition image_exts : list string :=
  [".png"; ".jpg"; ".jpeg"; ".gif"; ".webp"; ".svg"]%string.

Definition icon_words : list string :=
  ["icon"; "bnr"; "banner"; "logo"; "sns"; "insta"; "fb"; "tiktok"; "x_"; "line"]%string.

Definition _is_icon_link (E : Env) (href text : string) : bool :=
  let p := lower (urlparse_path E href) in
  if existsb (endswith p) image_exts then
    if existsb (fun k => str_in k p) icon_words then
      negb (nonempty text) || (len text <=? 1)
    else false
  else false.

Definition _ascii_for (E : Env) (C : Config) (url : string) : result string :=
  try_except
    (fetched <- fetch_bytes E url;;
     let '(data, ctype) := fetched in
     if (str_in "svg" ctype || endswith (lower url) ".svg") && negb (HAVE_CAIROSVG E)
     then Ok ("(SVG image skipped: CairoSVG not available) " +:+ url +:+ nl)
     else img_bytes_to_ascii E C data (ASCII_IMG_W C))
    (fun e => Ok ("(Image fetch error: " +:+ e +:+ ")" +:+ nl)).

Definition _should_draw_text_node (n : Node) : bool :=
  let txt := strip (n_txt n) in
  if negb (nonempty txt) then false
  else
    let tag := lower (n_tag n) in
    let disp := lower (n_disp n) in
    if among tag ["h1"; "h2"; "h3"; "h4"; "h5"; "h6"; "p"; "li"; "figcaption"; "td"; "th"]%string
    then true
    else if among tag ["button"; "label"]%string then true
    else if String.eqb tag "a" then 5 <=? len txt
    else if among tag ["div"; "span"; "section"; "article"]%string then
      if String.eqb disp "inline" then false else 30 <=? len txt
    else false.

(** [x in l] on a list, and [l.index(x)]. *)
Definition in_list (x : string) (l : list string) : bool :=
  existsb (String.eqb x) l.

Fixpoint list_index (x : string) (l : list string) : result Z :=
  match l with
  | [] => Raise "ValueError: not in list"
  | y :: l' => if String.eqb y x then Ok 0 else i <- list_index x l';; Ok (i + 1)
  end.

(** [l[:n]] on a list. *)
Definition list_upto {A} (n : Z) (l : list A) : list A :=
  if n <? 0 then take (length l - Z.to_nat (- n)) l else take (Z.to_nat n) l.

(** [[f"[{i}] <{h}>" for i, h in enumerate(l, 1)]] *)
Fixpoint listing (i : Z) (l : list string) : list string :=
  match l with
  | [] => []
  | h :: rest => ("[" +:+ pretty i +:+ "] <" +:+ h +:+ ">") :: listing (i + 1) rest
  end.

(** The [for i, src in enumerate(imgs[:AUTO_IMG_MAX], 1)] loop of the
    fallback renderer. *)
Fixpoint fallback_ascii (E : Env) (C : Config) (i : Z) (imgs : list string)
  (text : string) : result string :=
  match imgs with
  | [] => Ok text
  | src :: rest =>
      art <- _ascii_for E C src;;
      fallback_ascii E C (i + 1) rest
        (text +:+ "[IMG " +:+ pretty i +:+ "] " +:+ src +:+ nl +:+ art +:+ nl)
  end.

Definition _render_fallback_url (E : Env) (C : Config) (S : Session) (url : string)
  : result (string * Session) :=
  r <- requests_get E url;;
  let cur := r_url r in
  let soup := parse_html E (r_content r) (r_text r) in
  let imgs :=
    fold_left
      (fun imgs src =>
         if negb (nonempty src) then imgs
         else
           let src := urldefrag E (urljoin E cur src) in
           if in_list src imgs then imgs else imgs ++ [src])
      (soup_imgs soup) [] in
  let links_ :=
    fold_left
      (fun links_ a =>
         let '(href, t) := a in
         if negb (nonempty href) then links_
         else
           let href := urldefrag E (urljoin E cur href) in
           if filter_icons S && _is_icon_link E href t then links_
           else if in_list href links_ then links_ else links_ ++ [href])
      (soup_anchors soup) [] in
  let text := compress_blank (soup_text soup) in
  let text :=
    match links_ with
    | [] => text
    | _ => text +:+ nl +:+ nl +:+ "-- Links --" +:+ nl +:+ join nl (listing 1 links_)
    end in
  let text :=
    match imgs with
    | [] => text
    | _ => text +:+ nl +:+ nl +:+ "-- Images --" +:+ nl +:+ join nl (listing 1 imgs)
    end in
  text <-
    (if auto_image S && negb (bool_decide (imgs = [])) then
       fallback_ascii E C 1 (list_upto (AUTO_IMG_MAX C) imgs)
         (text +:+ nl +:+ nl +:+ "-- Images (ASCII, auto) --" +:+ nl)
     else Ok text);;
  Ok (text,
      {| user_agent := user_agent S; width := width S; js_mode := js_mode S;
         auto_image := auto_image S; filter_icons := filter_icons S;
         current_url := Some cur; full_text := text;
         links := links_; images := imgs;
         history := history S; future := future S |}).

(** ** The layout path of [load_url] *)

(** [max([n["x"] + n["w"] for n in nodes] + [1200])] *)
Definition viewport_width (nodes : list Node) : Z :=
  fold_right Z.max 1200 (map (fun n => n_x n + n_w n) nodes).

(** [scale_x = self.width / vp_w] and [scale_y = scale_x * ROW_ASPECT] *)
Definition scale_x (width_ vp_w : Z) : result spec_float := truediv width_ vp_w.
Definition scale_y (C : Config) (sx : spec_float) : spec_float :=
  Binary64.mul sx (row_aspect C).

(** The rectangle [(x, y, w, h)] computed at the head of the loop body. *)
Definition project (C : Config) (width_ vp_w : Z) (n : Node) : result Rect :=
  sx <- scale_x width_ vp_w;;
  let sy := scale_y C sx in
  x <- scaled (n_x n) sx;;
  y <- scaled (n_y n) sy;;
  w <- scaled (n_w n) sx;;
  h <- scaled (n_h n) sy;;
  Ok (x, y, Z.max 6 w, Z.max 1 h).

Definition is_bold (n : Node) : bool :=
  among (n_fw n) ["700"; "800"; "900"; "bold"]%string
  || among (n_tag n) ["h1"; "h2"; "h3"]%string.

(** Ghost record of what the loop body did. *)
Inductive Event :=
| DrewPlaceholder (n : Node) (url : string) (idx : Z)
| Converted (n : Node) (url : string) (art : string)
| Dropped (n : Node)
| DrewText (n : Node) (text : string) (bold : bool) (link : option (string * Z)).

(** The accumulators of the loop. *)
Record Loop := {
  canvas : TermCanvas;
  link_map : list string;
  image_map : list string;
  link_seen : gset string;
  img_seen : gset string;
  auto_img_count : Z;
  placed_text_rects : list (Rect * string);
  trace : list Event;
}.

Definition loop_init (width_ : Z) : Loop :=
  {| canvas := TermCanvas_init width_;
     link_map := []; image_map := [];
     link_seen := ∅; img_seen := ∅;
     auto_img_count := 0;
     placed_text_rects := [];
     trace := [] |}.

(** What the loop reads of the session and of the call. *)
Record Ctx := {
  cx_width : Z;
  cx_auto_image : bool;
  cx_filter_icons : bool;
  cx_base : string;   (** [self.current_url or url] *)
  cx_vp_w : Z;
}.

(** [if u not in seen: seen.add(u); reg.append(u)] *)
Definition register (u : string) (seen : gset string) (reg : list string)
  : gset string * list string :=
  if bool_decide (u ∈ seen) then (seen, reg) else ({[u]} ∪ seen, reg ++ [u]).

(** The body shared by the two image branches: register the source,
    paint the placeholder, convert while the budget lasts. *)
Definition image_block (E : Env) (C : Config) (K : Ctx) (st : Loop) (n : Node)
  (r : Rect) (fullsrc : string) : result Loop :=
  let '(x, y, w, h) := r in
  let '(img_seen', image_map') := register fullsrc (img_seen st) (image_map st) in
  i <- list_index fullsrc image_map';;
  let idx := i + 1 in
  cv <- draw_text_block E (canvas st) y x w ("[IMG " +:+ pretty idx +:+ "]") false;;
  let tr := trace st ++ [DrewPlaceholder n fullsrc idx] in
  if cx_auto_image K && (auto_img_count st <? AUTO_IMG_MAX C) then
    ascii_art <- _ascii_for E C fullsrc;;
    cv' <- draw_ascii_image cv (y + 1) x ascii_art (Z.min w (ASCII_IMG_W C));;
    Ok {| canvas := cv'; link_map := link_map st; image_map := image_map';
          link_seen := link_seen st; img_seen := img_seen';
          auto_img_count := auto_img_count st + 1;
          placed_text_rects := placed_text_rects st;
          trace := tr ++ [Converted n fullsrc ascii_art] |}
  else
    Ok {| canvas := cv; link_map := link_map st; image_map := image_map';
          link_seen := link_seen st; img_seen := img_seen';
          auto_img_count := auto_img_count st;
          placed_text_rects := placed_text_rects st;
          trace := tr |}.

(** The test of the deduplication loop against one placed record. *)
Definition matches_placed (r : Rect) (snippet : string) (p : Rect * string) : bool :=
  let '(pr, sn) := p in
  Qlt_bool (65 # 100) (rect_iou r pr) && (str_in snippet sn || str_in sn snippet).

Definition is_duplicate (r : Rect) (snippet : string) (placed : list (Rect * string))
  : bool :=
  existsb (matches_placed r snippet) placed.

(** [href and not (self.filter_icons and self._is_icon_link(href, txt))] *)
Definition is_linked (E : Env) (K : Ctx) (n : Node) : bool :=
  nonempty (n_href n)
  && negb (cx_filter_icons K && _is_icon_link E (n_href n) (n_txt n)).

(** The text branch of the loop body. *)
Definition text_block (E : Env) (K : Ctx) (st : Loop) (n : Node) (r : Rect)
  : result Loop :=
  let '(x, y, w, h) := r in
  let txt := n_txt n in
  if nonempty txt && _should_draw_text_node n then
    let snippet := upto 24 txt in
    if is_duplicate r snippet (placed_text_rects st) then
      Ok {| canvas := canvas st; link_map := link_map st; image_map := image_map st;
            link_seen := link_seen st; img_seen := img_seen st;
            auto_img_count := auto_img_count st;
            placed_text_rects := placed_text_rects st;
            trace := trace st ++ [Dropped n] |}
    else
      let href := n_href n in
      labelled <-
        (if is_linked E K n then
           let '(link_seen', link_map') := register href (link_seen st) (link_map st) in
           i <- list_index href link_map';;
           let idx := i + 1 in
           Ok (txt +:+ " [" +:+ pretty idx +:+ "]", Some (href, idx),
               link_seen', link_map')
         else Ok (txt, None, link_seen st, link_map st));;
      let '(txt', link, link_seen', link_map') := labelled in
      cv <- draw_text_block E (canvas st) y x w txt' (is_bold n);;
      Ok {| canvas := cv; link_map := link_map'; image_map := image_map st;
            link_seen := link_seen'; img_seen := img_seen st;
            auto_img_count := auto_img_count st;
            placed_text_rects := placed_text_rects st ++ [(r, snippet)];
            trace := trace st ++ [DrewText n txt' (is_bold n) link] |}
  else Ok st.

(** A rectangle whose values a float holds exactly. *)
Definition in_range (n : Node) : Prop :=
  Z.abs (n_x n) < 2 ^ 53 /\ Z.abs (n_y n) < 2 ^ 53
  /\ Z.abs (n_w n) < 2 ^ 53 /\ Z.abs (n_h n) < 2 ^ 53.

(** The URL of a CSS background image: [n["bg"][4:-1]] unquoted, joined
    to the page URL. *)
Definition bg_url (E : Env) (K : Ctx) (n : Node) : string :=
  let url_in := strip_char squote (strip_char dquote (strip (slice_4_m1 (n_bg n)))) in
  urljoin E (cx_base K) url_in.

(** One iteration of [for n in nodes]. *)
Definition step (E : Env) (C : Config) (K : Ctx) (st : Loop) (n : Node) : result Loop :=
  r <- project C (cx_width K) (cx_vp_w K) n;;
  if String.eqb (n_tag n) "img" && nonempty (n_src n) then
    image_block E C K st n r (n_src n)
  else
    st' <- (if startswith (n_bg n) "url(" then image_block E C K st n r (bg_url E K n)
            else Ok st);;
    text_block E K st' n r.

Fixpoint run_loop (E : Env) (C : Config) (K : Ctx) (st : Loop) (nodes : list Node)
  : result Loop :=
  match nodes with
  | [] => Ok st
  | n :: rest => st' <- step E C K st n;; run_loop E C K st' rest
  end.

Definition make_ctx (S : Session) (url final_url : string) (nodes : list Node) : Ctx :=
  {| cx_width := width S;
     cx_auto_image := auto_image S;
     cx_filter_icons := filter_icons S;
     cx_base := if nonempty final_url then final_url else url;
     cx_vp_w := viewport_width nodes |}.

(** The compositing pass of one page render: the scale, then the loop
    from fresh accumulators. *)
Definition composite (E : Env) (C : Config) (S : Session) (url final_url : string)
  (nodes : list Node) : result Loop :=
  _ <- scale_x (width S) (viewport_width nodes);;
  run_loop E C (make_ctx S url final_url nodes) (loop_init (width S)) nodes.

(** The text assembled after the loop. *)
Definition page_text (final_url : string) (st : Loop) : string :=
  let lines := ["# " +:+ final_url] in
  let lines :=
    match link_map st with
    | [] => lines
    | _ => lines ++ [nl +:+ "-- Links --"] ++ listing 1 (link_map st)
    end in
  let lines :=
    match image_map st with
    | [] => lines
    | _ => lines ++ [nl +:+ "-- Images --"] ++ listing 1 (image_map st)
    end in
  let body := TermCanvas_render (canvas st) +:+ nl +:+ join nl lines +:+ nl in
  compress_blank body.

Definition push_history (S : Session) : Session :=
  match current_url S with
  | Some u =>
      if nonempty u then
        {| user_agent := user_agent S; width := width S; js_mode := js_mode S;
           auto_image := auto_image S; filter_icons := filter_icons S;
           current_url := current_url S; full_text := full_text S;
           links := links S; images := images S;
           history := history S ++ [u]; future := [] |}
      else S
  | None => S
  end.

Definition load_url (E : Env) (C : Config) (S : Session) (url : string)
  : result (string * Session) :=
  let S := push_history S in
  if js_mode S && HAVE_PW E then
    match snapshot_dom E url (user_agent S) with
    | Raise _ => _render_fallback_url E C S url
    | Ok (nodes, final_url) =>
        match nodes with
        | [] => _render_fallback_url E C S url
        | _ =>
            st <- composite E C S url final_url nodes;;
            let text := page_text final_url st in
            Ok (text,
                {| user_agent := user_agent S; width := width S; js_mode := js_mode S;
                   auto_image := auto_image S; filter_icons := filter_icons S;
                   current_url := Some final_url; full_text := text;
                   links := link_map st; images := image_map st;
                   history := history S; future := future S |})
        end
    end
  else _render_fallback_url E C S url.


(** ** Stand-ins for the collaborators

    Small executable collaborators, used to run the code on concrete
    pages. *)

Module Double.

Definition is_blank (s : string) : bool := negb (nonempty (strip s)).

(** Maximal runs of blank and of non-blank characters. *)
Fixpoint runs (l : list ascii) (cur : list ascii) : list string :=
  match l with
  | [] => match cur with [] => [] | _ => [str (rev cur)] end
  | c :: l' =>
      match cur with
      | [] => runs l' [c]
      | d :: _ =>
          if Bool.eqb (isspace c) (isspace d) then runs l' (c :: cur)
          else str (rev cur) :: runs l' [c]
      end
  end.

Fixpoint fill (width_ : Z) (cur : list string) (cur_len : Z) (chunks : list string)
  : list string * list string :=
  match chunks with
  | [] => (cur, [])
  | c :: rest =>
      if cur_len + len c <=? width_ then fill width_ (cur ++ [c]) (cur_len + len c) rest
      else (cur, chunks)
  end.

Definition drop_trailing_blank (cur : list string) : list string :=
  match rev cur with
  | l :: before => if is_blank l then rev before else cur
  | [] => cur
  end.

(** The greedy line filling of [textwrap.wrap] with
    [break_long_words=False], on text without tabs and hyphens. *)
Fixpoint wrap_chunks (fuel : nat) (width_ : Z) (chunks : list string) (started : bool)
  : list string :=
  match fuel with
  | O => []
  | S fuel' =>
      match chunks with
      | [] => []
      | c0 :: rest0 =>
          let chunks := if is_blank c0 && started then rest0 else chunks in
          let '(cur, chunks) := fill width_ [] 0 chunks in
          let '(cur, chunks) :=
            match cur, chunks with
            | [], c :: rest => if width_ <? len c then ([c], rest) else (cur, chunks)
            | _, _ => (cur, chunks)
            end in
          match drop_trailing_blank cur with
          | [] => wrap_chunks fuel' width_ chunks started
          | cur => join EmptyString cur :: wrap_chunks fuel' width_ chunks true
          end
      end
  end.

Definition wrap (para : string) (width_ : Z) : list string :=
  let chunks := runs (chars para) [] in
  wrap_chunks (Datatypes.S (length chunks)) width_ chunks false.

(** A raw image format: a width byte, a height byte, then the
    luminance bytes row after row. *)
Definition raw_open (b : bytes) : result Image :=
  match b with
  | bw :: bh :: px =>
      let w := Z.of_N (Byte.to_N bw) in
      let h := Z.of_N (Byte.to_N bh) in
      if (w =? 0) || (h =? 0) || negb (Z.of_nat (length px) =? w * h)
      then Raise "cannot identify image file"
      else Ok {| im_width := w; im_height := h;
                 im_data := map (fun p => Z.of_N (Byte.to_N p)) px |}
  | _ => Raise "cannot identify image file"
  end.

(** Nearest-neighbour resampling. *)
Definition nearest_resize (im : Image) (w h : Z) : result Image :=
  if (w <=? 0) || (h <=? 0) then Raise "height and width must be > 0"
  else
    Ok {| im_width := w; im_height := h;
          im_data :=
            map (fun k =>
                   let k := Z.of_nat k in
                   let sx := (k mod w) * im_width im / w in
                   let sy := (k / w) * im_height im / h in
                   nth (Z.to_nat (sy * im_width im + sx)) (im_data im) 0)
                (seq 0 (Z.to_nat (w * h))) |}.

Fixpoint assoc {A} (k : string) (l : list (string * A)) : option A :=
  match l with
  | [] => None
  | (k', v) :: l' => if String.eqb k k' then Some v else assoc k l'
  end.

(** An environment serving the given web resources and snapshots. *)
Definition env (web : list (string * Response))
  (pages : list (string * (list (list Node) * string))) : Env :=
  {| HAVE_PIL := true; HAVE_CAIROSVG := false; HAVE_PW := true;
     Image_open_L := raw_open;
     Image_resize := nearest_resize;
     requests_get := fun url =>
       match assoc url web with
       | Some r => Ok r
       | None => Raise "ConnectionError"
       end;
     svg2png := fun _ => Raise "cairosvg unavailable";
     playwright_capture := fun url _ =>
       match assoc url pages with
       | Some p => Ok p
       | None => Raise "net::ERR_NAME_NOT_RESOLVED"
       end;
     textwrap_wrap := wrap;
     urljoin := fun _ rel => rel;
     urldefrag := fun u => u;
     urlparse_path := fun u => u;
     parse_html := fun _ text =>
       {| soup_imgs := []; soup_anchors := []; soup_text := text |} |}.

Definition byte_of (n : N) : Byte.byte :=
  match Byte.of_N n with
  | Some b => b
  | None => Byte.x00
  end.

(** A 20 x 3 image in the raw format, a left-to-right gradient. *)
Definition gradient_20x3 : bytes :=
  byte_of 20 :: byte_of 3
    :: map (fun k => byte_of (N.of_nat ((k mod 20) * 13))) (seq 0 60).

Definition session (width_ : Z) : Session :=
  {| user_agent := "Mozilla/5.0"; width := width_; js_mode := true;
     auto_image := true; filter_icons := true;
     current_url := None; full_text := EmptyString;
     links := []; images := []; history := []; future := [] |}.

Definition node (tag_ : string) (x y w h : Z) (txt_ : string) : Node :=
  {| n_tag := tag_; n_x := x; n_y := y; n_w := w; n_h := h; n_z := 0;
     n_txt := txt_; n_href := EmptyString; n_src := EmptyString;
     n_bg := EmptyString; n_fw := "400"; n_disp := "block" |}.

Definition img_node (x y w h : Z) (src_ : string) : Node :=
  {| n_tag := "img"; n_x := x; n_y := y; n_w := w; n_h := h; n_z := 0;
     n_txt := EmptyString; n_href := EmptyString; n_src := src_;
     n_bg := EmptyString; n_fw := "400"; n_disp := "inline" |}.

Definition link_node (x y w h : Z) (txt_ href_ : string) : Node :=
  {| n_tag := "a"; n_x := x; n_y := y; n_w := w; n_h := h; n_z := 0;
     n_txt := txt_; n_href := href_; n_src := EmptyString;
     n_bg := EmptyString; n_fw := "400"; n_disp := "inline" |}.

Definition bg_node (x y w h : Z) (txt_ bg_ : string) : Node :=
  {| n_tag := "div"; n_x := x; n_y := y; n_w := w; n_h := h; n_z := 0;
     n_txt := txt_; n_href := EmptyString; n_src := EmptyString;
     n_bg := bg_; n_fw := "400"; n_disp := "block" |}.

(** The computed style [url("...")] of a background image. *)
Definition css_url (u : string) : string :=
  "url(" +:+ String dquote u +:+ String dquote ")".

Definition home : string := "http://a/".


(** Five image nodes over four sources, and one link met twice. *)
Definition page_gallery : list Node :=
  [img_node 0 0 300 100 "http://a/a.png";
   link_node 0 120 300 20 "Read more" "http://a/more";
   img_node 0 160 300 100 "http://a/a.png";
   img_node 0 280 300 100 "http://a/b.png";
   img_node 0 400 300 100 "http://a/c.png";
   img_node 0 520 300 100 "http://a/d.png";
   link_node 0 640 300 20 "Read more" "http://a/more"].

(** A block with a background image and a text of its own. *)
Definition page_hero : list Node :=
  [bg_node 0 0 600 200 "Welcome to the winter collection sale"
     (css_url "http://a/hero.png")].

(** A heading in a box thirteen columns wide at width 80. *)
Definition page_heading : list Node :=
  [node "h1" 0 0 200 40 "Breaking News"].

Definition serving (page : list Node) : Env :=
  env [] [(home, ([page], home))].

(** The accumulators after compositing [page]. *)
Definition composited (width_ : Z) (page : list Node) : Loop :=
  match composite (serving page) default_config (session width_) home home page with
  | Ok st => st
  | Raise _ => loop_init width_
  end.

End Double.

(** ** Definitions that follow the specification's words *)

(** Lines, each followed by a newline. *)
Fixpoint unlines (ls : list string) : string :=
  match ls with
  | [] => EmptyString
  | l :: rest => l +:+ nl +:+ unlines rest
  end.

(** The specification's codec height:
    [max(1, round(sourceHeight * (w / sourceWidth) * rowAspect))]. *)
Definition spec_ascii_height (C : Config) (im : Image) (w : Z) : Z :=
  Z.max 1 (Py.round (inject_Z (im_height im)
                     * (inject_Z w / inject_Z (im_width im)) * ROW_ASPECT C)%Q).

(** The specification's ramp lookup:
    [index = floor(luminance / 255 * (rampLength - 1))]. *)
Definition spec_ramp_char (p : Z) : ascii :=
  nth (Z.to_nat (Qfloor (inject_Z p / 255 * 9)%Q)) (chars ASCII_RAMP) space.

(** URLs in the order of their first occurrence. *)
Definition first_seen (urls : list string) : list string :=
  fold_left (fun acc u => if bool_decide (u ∈ acc) then acc else acc ++ [u]) urls [].

(** The specification's projection: every component by [floor]. *)
Definition spec_project (C : Config) (width_ vp_w : Z) (n : Node) : Rect :=
  let sx := (inject_Z width_ / inject_Z vp_w)%Q in
  let sy := (sx * ROW_ASPECT C)%Q in
  (Qfloor (inject_Z (n_x n) * sx)%Q,
   Qfloor (inject_Z (n_y n) * sy)%Q,
   Z.max 6 (Qfloor (inject_Z (n_w n) * sx)%Q),
   Z.max 1 (Qfloor (inject_Z (n_h n) * sy)%Q)).

(** ** Reading the ghost trace *)

(** The [(url, index)] pairs painted as [[IMG index]] placeholders. *)
Definition placeholder_refs (tr : list Event) : list (string * Z) :=
  flat_map (fun e => match e with
                     | DrewPlaceholder _ u idx => [(u, idx)]
                     | _ => []
                     end) tr.

(** The [(href, index)] pairs painted as [text [index]] suffixes. *)
Definition link_refs (tr : list Event) : list (string * Z) :=
  flat_map (fun e => match e with
                     | DrewText _ _ _ (Some p) => [p]
                     | _ => []
                     end) tr.

(** The calls of [_ascii_for], with the node that caused each. *)
Definition conversions (tr : list Event) : list (Node * string) :=
  flat_map (fun e => match e with
                     | Converted n u _ => [(n, u)]
                     | _ => []
                     end) tr.

(** The nodes that reached the text branch's decision: painted or
    dropped as duplicates. *)
Definition text_nodes (tr : list Event) : list Node :=
  flat_map (fun e => match e with
                     | DrewText n _ _ _ => [n]
                     | Dropped n => [n]
                     | _ => []
                     end) tr.

(** The image source of a node, as the two image tests of the loop body
    find it. *)
Definition image_source (E : Env) (K : Ctx) (n : Node) : option string :=
  if String.eqb (n_tag n) "img" && nonempty (n_src n) then Some (n_src n)
  else if startswith (n_bg n) "url(" then Some (bg_url E K n)
  else None.

Definition image_nodes (E : Env) (K : Ctx) (nodes : list Node) : list (Node * string) :=
  flat_map (fun n => match image_source E K n with
                     | Some u => [(n, u)]
                     | None => []
                     end) nodes.

(** A registry and its membership set agree, and no URL is listed twice. *)
Definition registry_ok (seen : gset string) (reg : list string) : Prop :=
  NoDup reg /\ forall u, u ∈ seen <-> u ∈ reg.

(** Every painted index is the 1-based position of its URL. *)
Definition refs_ok (reg : list string) (refs : list (string * Z)) : Prop :=
  Forall (fun p => 1 <= snd p /\ reg !! Z.to_nat (snd p - 1) = Some (fst p)) refs.

Record Inv (st : Loop) : Prop := {
  inv_img : registry_ok (img_seen st) (image_map st);
  inv_link : registry_ok (link_seen st) (link_map st);
  inv_img_order : image_map st = first_seen (map fst (placeholder_refs (trace st)));
  inv_link_order : link_map st = first_seen (map fst (link_refs (trace st)));
  inv_img_refs : refs_ok (image_map st) (placeholder_refs (trace st));
  inv_link_refs : refs_ok (link_map st) (link_refs (trace st));
}.

(** The nodes painted as placeholders, with their sources. *)
Definition placeholder_nodes (tr : list Event) : list (Node * string) :=
  flat_map (fun e => match e with
                     | DrewPlaceholder n u _ => [(n, u)]
                     | _ => []
                     end) tr.

(** How many conversions a render may still start. *)
Definition budget_left (C : Config) (K : Ctx) (st : Loop) : nat :=
  if cx_auto_image K then Z.to_nat (AUTO_IMG_MAX C - auto_img_count st) else 0%nat.


(** ** Predicates for the properties of the remaining code *)

(** [line.strip() == ""] *)
Definition blank_line (l : string) : bool := negb (nonempty (strip l)).

(** No blank line directly follows a blank line. *)
Fixpoint no_blank_run (ls : list string) : bool :=
  match ls with
  | a :: rest =>
      match rest with
      | b :: _ => negb (blank_line a && blank_line b) && no_blank_run rest
      | [] => true
      end
  | [] => true
  end.

(** A character at which [str.splitlines] cuts. *)
Definition is_break (c : ascii) : bool := is_cr c || is_linebreak c.

Definition one_line (l : string) : Prop := Forall (fun c => is_break c = false) (chars l).

(** The paint order: [(z, y, x, h*w)] compared lexicographically. *)
Definition key_le (n m : Node) : Prop :=
  n_z n < n_z m
  \/ (n_z n = n_z m
      /\ (n_y n < n_y m
          \/ (n_y n = n_y m
              /\ (n_x n < n_x m
                  \/ (n_x n = n_x m /\ n_h n * n_w n <= n_h m * n_w m))))).

(** Every row of the canvas has [W] cells. *)
Definition canvas_ok (cv : TermCanvas) : Prop :=
  Forall (fun row => length row = Z.to_nat (canvas_W cv)) (canvas_lines cv).

(** The character shown at row [r], column [k]; a row not yet created
    shows blanks. *)
Definition cell_at (cv : TermCanvas) (r k : nat) : ascii :=
  match canvas_lines cv !! r with
  | Some row => default space (row !! k)
  | None => space
  end.

(** The character that a list of lines drawn from [(top, left)] puts at
    row [r], column [k], if any. *)
Definition drawn_at (top : nat) (left_col : Z) (rows : list string) (r k : nat)
  : option ascii :=
  if (top <=? r)%nat then
    match rows !! (r - top)%nat with
    | Some s =>
        if (left_col <=? Z.of_nat k) && (Z.of_nat k <? left_col + len s)
        then chars s !! Z.to_nat (Z.of_nat k - left_col)
        else None
    | None => None
    end
  else None.

(** ** Reading the fallback renderer *)

(** The absolute, fragment-free form the fallback gives a reference of the
    document: [urldefrag(urljoin(self.current_url, ref))[0]]. *)
Definition resolve (E : Env) (base ref : string) : string :=
  urldefrag E (urljoin E base ref).

(** The anchors the fallback lists: those with an [href] that the icon
    filter lets through. *)
Definition listed_anchor (E : Env) (S : Session) (base : string) (a : string * string)
  : bool :=
  nonempty a.1 && negb (filter_icons S && _is_icon_link E (resolve E base a.1) a.2).

(** The session fields a page load reads and does not write. *)
Definition same_settings (S S' : Session) : Prop :=
  user_agent S' = user_agent S /\ width S' = width S /\ js_mode S' = js_mode S
  /\ auto_image S' = auto_image S /\ filter_icons S' = filter_icons S.

Module Sample.

(** A parsed document: three images over two sources and one without
    [src]; a logo link without text, two links to one target and an anchor
    without [href]. *)
Definition soup : Soup :=
  {| soup_imgs := ["http://a/a.png"; EmptyString; "http://a/b.png"; "http://a/a.png"];
     soup_anchors :=
       [("http://a/logo.png", EmptyString); ("http://a/more", "Read more");
        (EmptyString, "top"); ("http://a/more", "More")];
     soup_text := "Welcome" |}.

Definition response : Response :=
  {| r_status := 200; r_url := Double.home; r_content := [];
     r_text := "<html>"; r_content_type := "text/html" |}.

(** [Double.env] serving [response], whose document parses to [soup]. *)
Definition env : Env :=
  let e := Double.env [(Double.home, response)] [] in
  {| HAVE_PIL := HAVE_PIL e; HAVE_CAIROSVG := HAVE_CAIROSVG e; HAVE_PW := HAVE_PW e;
     Image_open_L := Image_open_L e; Image_resize := Image_resize e;
     requests_get := requests_get e; svg2png := svg2png e;
     playwright_capture := playwright_capture e;
     textwrap_wrap := textwrap_wrap e;
     urljoin := urljoin e; urldefrag := urldefrag e;
     urlparse_path := urlparse_path e;
     parse_html := fun _ _ => soup |}.



(** A session showing [u], reached from one page, with one page ahead. *)
Definition visiting (u : string) : Session :=
  {| user_agent := "Mozilla/5.0"; width := 80; js_mode := true;
     auto_image := true; filter_icons := true;
     current_url := Some u; full_text := "old";
     links := ["http://a/old"]; images := [];
     history := ["http://a/first"]; future := ["http://a/next"] |}.

End Sample.

(** * Properties *)

(** ** Rectangle overlap *)

Section RectIou.

Lemma iou_parts_sym (a b : Rect) : iou_parts a b = iou_parts b a.
Proof.
  destruct a as [[[ax ay] aw] ah], b as [[[bx by_] bw] bh]; cbn.
  rewrite (Z.max_comm bx ax), (Z.max_comm by_ ay).
  rewrite (Z.min_comm (bx + bw)), (Z.min_comm (by_ + bh)).
  do 2 f_equal. lia.
Qed.

(** When the rectangles overlap, the overlap fits in both of them. *)
Lemma iou_parts_bound (a b : Rect) inter d :
  iou_parts a b = (inter, d) ->
  0 <= inter /\ 1 <= d /\ (inter <> 0 -> inter <= d).
Proof.
  destruct a as [[[ax ay] aw] ah], b as [[[bx by_] bw] bh]; cbn.
  intros [= <- <-]. split; [nia|]. split; [lia|]. intros Hne.
  set (iw := Z.max 0 (Z.min (ax + aw) (bx + bw) - Z.max ax bx)) in *.
  set (ih := Z.max 0 (Z.min (ay + ah) (by_ + bh) - Z.max ay by_)) in *.
  assert (0 < iw /\ 0 < ih) as [Hw Hh] by nia.
  assert (iw <= aw /\ iw <= bw) as [? ?] by (unfold iw in *; lia).
  assert (ih <= ah /\ ih <= bh) as [? ?] by (unfold ih in *; lia).
  assert (iw * ih <= aw * ah) by nia.
  assert (iw * ih <= bw * bh) by nia.
  lia.
Qed.

Lemma Qdiv_Z_unit (p d : Z) :
  0 < p -> p <= d -> (0 <= inject_Z p / inject_Z d <= 1)%Q.
Proof.
  intros Hp Hd.
  assert (Hd0 : (0 < inject_Z d)%Q).
  { change 0%Q with (inject_Z 0). rewrite <- Zlt_Qlt. lia. }
  split.
  - apply Qle_shift_div_l; [exact Hd0|].
    rewrite Qmult_0_l. change 0%Q with (inject_Z 0). rewrite <- Zle_Qle. lia.
  - apply Qle_shift_div_r; [exact Hd0|].
    rewrite Qmult_1_l. rewrite <- Zle_Qle. exact Hd.
Qed.

Lemma rect_iou_sym (a b : Rect) : rect_iou a b = rect_iou b a.
Proof. unfold rect_iou. now rewrite iou_parts_sym. Qed.

Lemma rect_iou_unit (a b : Rect) : (0 <= rect_iou a b <= 1)%Q.
Proof.
  unfold rect_iou. destruct (iou_parts a b) as [inter d] eqn:E.
  destruct (iou_parts_bound _ _ _ _ E) as (H0 & H1 & Hle).
  destruct (Z.eqb_spec inter 0) as [->|Hne].
  - split; [apply Qle_refl | discriminate].
  - apply Qdiv_Z_unit; [lia | auto].
Qed.

Lemma rect_iou_self_proper (x y w h : Z) :
  0 < w -> 0 < h -> (rect_iou (x, y, w, h) (x, y, w, h) == 1)%Q.
Proof.
  intros Hw Hh. unfold rect_iou; cbn.
  rewrite !Z.max_id, !Z.min_id.
  replace (x + w - x) with w by lia. replace (y + h - y) with h by lia.
  rewrite (Z.max_r 0 w), (Z.max_r 0 h) by lia.
  replace (w * h + w * h - w * h) with (w * h) by lia.
  assert (0 < w * h) by nia.
  rewrite (Z.max_r 1 (w * h)) by lia.
  destruct (Z.eqb_spec (w * h) 0); [lia|].
  apply Qmult_inv_r. intros Hq.
  apply (Qlt_not_eq 0 (inject_Z (w * h))); [|now symmetry].
  change 0%Q with (inject_Z 0). rewrite <- Zlt_Qlt. lia.
Qed.

Lemma rect_iou_self_degenerate (x y w h : Z) :
  w <= 0 \/ h <= 0 -> rect_iou (x, y, w, h) (x, y, w, h) = 0%Q.
Proof.
  intros Hd. unfold rect_iou; cbn.
  rewrite !Z.max_id, !Z.min_id.
  replace (x + w - x) with w by lia. replace (y + h - y) with h by lia.
  assert (Z.max 0 w * Z.max 0 h = 0) as -> by nia.
  reflexivity.
Qed.

Lemma rect_iou_disjoint (a b : Rect) :
  disjoint_rects a b -> rect_iou a b = 0%Q.
Proof.
  intros Hdis. unfold rect_iou.
  destruct (iou_parts a b) as [inter d] eqn:E.
  destruct (Z.eqb_spec inter 0) as [|Hne]; [reflexivity|].
  exfalso. destruct a as [[[ax ay] aw] ah], b as [[[bx by_] bw] bh].
  cbn in E. injection E as Ei _.
  apply (Hdis (Z.max ax bx) (Z.max ay by_)). unfold covers.
  assert (0 < Z.min (ax + aw) (bx + bw) - Z.max ax bx) by nia.
  assert (0 < Z.min (ay + ah) (by_ + bh) - Z.max ay by_) by nia.
  lia.
Qed.

End RectIou.

(** ** Binary64 arithmetic

    What the pipeline needs of the rounding of [SpecFloat]: a product or
    a quotient of values in range is a zero or a finite float of the
    expected sign, so that [int] of it is defined. *)

Section Binary64Facts.

Import Binary64.

Lemma digits2_pos_size (p : positive) : digits2_pos p = Pos.size p.
Proof. induction p as [p IH|p IH|]; cbn; now rewrite ?IH. Qed.

Lemma digits_bounds (p : positive) :
  2 ^ (Zpos (digits2_pos p) - 1) <= Zpos p < 2 ^ Zpos (digits2_pos p).
Proof.
  rewrite digits2_pos_size. split.
  - pose proof (Pos.size_le p) as H.
    assert (H' : 2 ^ Zpos (Pos.size p) <= 2 * Zpos p).
    { rewrite <- Pos2Z.inj_pow. change (2 * Zpos p) with (Zpos (p~0)).
      now apply Pos2Z.pos_le_pos. }
    replace (Zpos (Pos.size p)) with (Zpos (Pos.size p) - 1 + 1) in H' by lia.
    rewrite Z.pow_add_r in H' by lia. lia.
  - pose proof (Pos.size_gt p) as H. rewrite <- Pos2Z.inj_pow.
    now apply Pos2Z.pos_lt_pos.
Qed.

Lemma Zdigits2_nonneg (m : Z) : 0 <= Zdigits2 m.
Proof. destruct m; cbn; lia. Qed.

Lemma Zdigits2_bounds (m : Z) :
  0 < m -> 2 ^ (Zdigits2 m - 1) <= m < 2 ^ Zdigits2 m.
Proof. destruct m as [|p|p]; try lia. intros _. apply digits_bounds. Qed.

Lemma Zdigits2_le (m d : Z) : 0 <= m -> 0 <= d -> m < 2 ^ d -> Zdigits2 m <= d.
Proof.
  intros Hm Hd Hlt. destruct (Z.eq_dec m 0) as [->|Hne]; [cbn; lia|].
  destruct (Zdigits2_bounds m) as [Hlo _]; [lia|].
  destruct (Z_le_gt_dec (Zdigits2 m) d) as [|Hgt]; [assumption|].
  assert (2 ^ d <= 2 ^ (Zdigits2 m - 1)) by (apply Z.pow_le_mono_r; lia).
  lia.
Qed.

Lemma Zdigits2_ge (m d : Z) : 2 ^ (d - 1) <= m -> 1 <= d -> d <= Zdigits2 m.
Proof.
  intros Hlo Hd.
  assert (0 < 2 ^ (d - 1)) by (apply Z.pow_pos_nonneg; lia).
  destruct (Zdigits2_bounds m) as [_ Hhi]; [lia|].
  destruct (Z_le_gt_dec d (Zdigits2 m)) as [|Hgt]; [assumption|].
  assert (2 ^ Zdigits2 m <= 2 ^ (d - 1)).
  { apply Z.pow_le_mono_r; [lia|]. lia. }
  lia.
Qed.

Lemma fexp_eq (x : Z) : fexp prec emax x = Z.max (x - 53) (-1074).
Proof. reflexivity. Qed.

Lemma shr_1_m (mrs : shr_record) :
  0 <= shr_m mrs -> shr_m (shr_1 mrs) = shr_m mrs / 2.
Proof.
  destruct mrs as [m r s]. cbn [shr_m]. intros H.
  rewrite <- Z.div2_div.
  destruct m as [|[p|p|]|p]; cbn [shr_1 shr_m]; try reflexivity; lia.
Qed.

Lemma iter_shr_m (p : positive) : forall mrs,
  0 <= shr_m mrs ->
  shr_m (SpecFloat.iter_pos shr_1 p mrs) = shr_m mrs / 2 ^ Zpos p.
Proof.
  assert (Hpow : forall q : positive, 0 < 2 ^ Zpos q)
    by (intros q; apply Z.pow_pos_nonneg; lia).
  induction p as [p IH|p IH|]; intros mrs Hm; cbn [SpecFloat.iter_pos].
  - assert (H1 : 0 <= shr_m (shr_1 mrs)).
    { rewrite shr_1_m by assumption. apply Z.div_pos; lia. }
    assert (H2 : 0 <= shr_m (SpecFloat.iter_pos shr_1 p (shr_1 mrs))).
    { rewrite IH by assumption. apply Z.div_pos; [assumption | apply Hpow]. }
    rewrite IH, IH, shr_1_m by assumption.
    pose proof (Hpow p).
    rewrite !Z.div_div by lia. f_equal.
    replace (Zpos p~1) with (1 + Zpos p + Zpos p) by lia.
    rewrite !Z.pow_add_r by lia. lia.
  - assert (H2 : 0 <= shr_m (SpecFloat.iter_pos shr_1 p mrs)).
    { rewrite IH by assumption. apply Z.div_pos; [assumption | apply Hpow]. }
    rewrite IH, IH by assumption.
    pose proof (Hpow p).
    rewrite !Z.div_div by lia. f_equal.
    replace (Zpos p~0) with (Zpos p + Zpos p) by lia.
    rewrite !Z.pow_add_r by lia. lia.
  - now apply shr_1_m.
Qed.

Lemma shr_record_of_loc_m (m : Z) (l : location) :
  shr_m (shr_record_of_loc m l) = m.
Proof. destruct l as [|[]]; reflexivity. Qed.

Lemma shr_fexp_spec (m e : Z) (l : location) (mrs : shr_record) (e' : Z) :
  0 <= m ->
  shr_fexp prec emax m e l = (mrs, e') ->
  e' = Z.max e (fexp prec emax (Zdigits2 m + e))
  /\ shr_m mrs = m / 2 ^ (e' - e).
Proof.
  intros Hm. unfold shr_fexp, shr.
  destruct (fexp prec emax (Zdigits2 m + e) - e) as [|p|p] eqn:Hn.
  - intros [= <- <-]. split; [lia|].
    rewrite Z.sub_diag, Z.pow_0_r, Z.div_1_r. apply shr_record_of_loc_m.
  - intros [= <- <-]. split; [lia|].
    rewrite iter_shr_m by (rewrite shr_record_of_loc_m; assumption).
    rewrite shr_record_of_loc_m. do 2 f_equal. lia.
  - intros [= <- <-]. split; [lia|].
    rewrite Z.sub_diag, Z.pow_0_r, Z.div_1_r. apply shr_record_of_loc_m.
Qed.

Lemma round_nearest_even_bounds (m : Z) (l : location) :
  m <= round_nearest_even m l <= m + 1.
Proof.
  unfold round_nearest_even. destruct l as [|[]]; try lia.
  destruct (Z.even m); lia.
Qed.

Lemma pow2_pos (k : Z) : 0 <= k -> 0 < 2 ^ k.
Proof. intros. apply Z.pow_pos_nonneg; lia. Qed.

Lemma pow2_split (a b : Z) : 0 <= a -> 0 <= b -> 2 ^ (a + b) = 2 ^ a * 2 ^ b.
Proof. intros. apply Z.pow_add_r; lia. Qed.

(** Dropping [n] low bits of a number of [d] bits. *)
Lemma div_pow2_upper (m d n : Z) :
  0 <= m -> m < 2 ^ d -> 0 <= n -> n <= d -> m / 2 ^ n < 2 ^ (d - n).
Proof.
  intros Hm Hd Hn Hnd. pose proof (pow2_pos n Hn).
  apply Z.div_lt_upper_bound; [lia|].
  rewrite <- pow2_split by lia. now replace (n + (d - n)) with d by lia.
Qed.

Lemma div_pow2_lower (m d n : Z) :
  2 ^ (d - 1) <= m -> 0 <= n -> n <= d - 1 -> 2 ^ (d - 1 - n) <= m / 2 ^ n.
Proof.
  intros Hm Hn Hnd. pose proof (pow2_pos n Hn).
  apply Z.div_le_lower_bound; [lia|].
  rewrite <- pow2_split by lia. now replace (n + (d - 1 - n)) with (d - 1) by lia.
Qed.

Lemma Zdigits2_eq (m d : Z) : 1 <= d -> 2 ^ (d - 1) <= m < 2 ^ d -> Zdigits2 m = d.
Proof.
  intros Hd [Hlo Hhi]. pose proof (pow2_pos (d - 1) ltac:(lia)).
  apply Z.le_antisymm; [apply Zdigits2_le; lia | now apply Zdigits2_ge].
Qed.

Lemma round_within (s : bool) (m e : Z) (l : location) (K : Z) :
  0 <= m ->
  e <= fexp prec emax (Zdigits2 m + e) ->
  Zdigits2 m + e <= K -> 0 <= K <= 1023 ->
  within s (K + 1) (binary_round_aux prec emax s m e l).
Proof.
  intros Hm Hin HK HKr. unfold binary_round_aux.
  destruct (shr_fexp prec emax m e l) as [mrs1 e1] eqn:H1.
  destruct (shr_fexp_spec _ _ _ _ _ Hm H1) as [He1 Hm1].
  set (m1 := shr_m mrs1) in *.
  set (m2 := round_nearest_even m1 (loc_of_shr_record mrs1)).
  pose proof (round_nearest_even_bounds m1 (loc_of_shr_record mrs1)) as Hm2.
  fold m2 in Hm2.
  assert (Hp1 : 0 < 2 ^ (e1 - e)) by (apply pow2_pos; lia).
  assert (Hm1' : 0 <= m1) by (rewrite Hm1; apply Z.div_pos; lia).
  destruct (shr_fexp prec emax m2 e1 loc_Exact) as [mrs2 e2] eqn:H2.
  assert (Hm2' : 0 <= m2) by lia.
  destruct (shr_fexp_spec _ _ _ _ _ Hm2' H2) as [He2 Hm3].
  set (m3 := shr_m mrs2) in *.
  rewrite fexp_eq in *.
  set (d := Zdigits2 m) in *.
  pose proof (Zdigits2_nonneg m) as Hd0. fold d in Hd0.
  assert (He1' : e1 = Z.max (d + e - 53) (-1074)) by lia.
  change (2 ^ 53) with 9007199254740992 in *.
  destruct (Z_le_gt_dec (-1074) (d + e - 53)) as [Hnorm|Hsub].
  - (* the normal range: the first shift leaves 53 bits *)
    assert (Hmpos : 0 < m).
    { destruct (Z.eq_dec m 0) as [Hz|]; [|lia]. subst d. rewrite Hz in *. cbn in *. lia. }
    destruct (Zdigits2_bounds m Hmpos) as [Hlo Hhi]. fold d in Hlo, Hhi.
    assert (Hb1 : 2 ^ 52 <= m1 < 2 ^ 53).
    { rewrite Hm1. split.
      - replace 52 with (d - 1 - (e1 - e)) by lia. apply div_pow2_lower; lia.
      - replace 53 with (d - (e1 - e)) by lia. apply div_pow2_upper; lia. }
    change (2 ^ 52) with 4503599627370496 in Hb1.
    change (2 ^ 53) with 9007199254740992 in Hb1.
    destruct (Z.eq_dec m2 9007199254740992) as [Htop|Hntop].
    + assert (Hd2 : Zdigits2 m2 = 54) by (rewrite Htop; reflexivity).
      rewrite Hd2 in He2.
      assert (He2' : e2 = e1 + 1) by lia.
      assert (Hm3' : m3 = 4503599627370496).
      { rewrite Hm3, He2', Htop. replace (e1 + 1 - e1) with 1 by lia. reflexivity. }
      rewrite Hm3'. cbn [shr_m].
      replace (e2 <=? emax - prec) with true
        by (symmetry; apply Z.leb_le; unfold emax, prec; lia).
      cbn [within]. split; [reflexivity|]. rewrite fexp_eq.
      change (Zpos (digits2_pos 4503599627370496)) with 53. lia.
    + assert (Hd2 : Zdigits2 m2 = 53).
      { apply Zdigits2_eq; [lia|].
        change (2 ^ (53 - 1)) with 4503599627370496.
        change (2 ^ 53) with 9007199254740992. lia. }
      rewrite Hd2 in He2.
      assert (He2' : e2 = e1) by lia.
      assert (Hm3' : m3 = m2).
      { rewrite Hm3, He2', Z.sub_diag. apply Z.div_1_r. }
      rewrite Hm3'. destruct m2 as [|p2|p2]; try lia.
      replace (e2 <=? emax - prec) with true
        by (symmetry; apply Z.leb_le; unfold emax, prec; lia).
      cbn [within]. split; [reflexivity|]. rewrite fexp_eq.
      change (Zpos (digits2_pos p2)) with (Zdigits2 (Zpos p2)). rewrite Hd2. lia.
  - (* the subnormal range: exponent -1074, at most 52 bits before rounding *)
    assert (Hb1 : m1 < 2 ^ 52).
    { rewrite Hm1. destruct (Z.eq_dec m 0) as [->|Hne].
      - rewrite Z.div_0_l by lia. apply pow2_pos; lia.
      - destruct (Zdigits2_bounds m ltac:(lia)) as [_ Hhi]. fold d in Hhi.
        apply Z.div_lt_upper_bound; [lia|].
        rewrite <- pow2_split by lia.
        eapply Z.lt_le_trans; [exact Hhi|].
        apply Z.pow_le_mono_r; lia. }
    change (2 ^ 52) with 4503599627370496 in Hb1.
    assert (Hd2 : Zdigits2 m2 <= 53).
    { apply Zdigits2_le; [lia | lia |].
      change (2 ^ 53) with 9007199254740992. lia. }
    pose proof (Zdigits2_nonneg m2).
    assert (He2' : e2 = e1) by lia.
    assert (Hm3' : m3 = m2).
    { rewrite Hm3, He2', Z.sub_diag. apply Z.div_1_r. }
    rewrite Hm3'. destruct m2 as [|p2|p2]; try lia; [reflexivity|].
    replace (e2 <=? emax - prec) with true
      by (symmetry; apply Z.leb_le; unfold emax, prec; lia).
    cbn [within]. split; [reflexivity|]. rewrite fexp_eq.
    change (Zpos (digits2_pos p2)) with (Zdigits2 (Zpos p2)). lia.
Qed.

Lemma within_weaken (s : bool) (k k' : Z) (f : spec_float) :
  within s k f -> k <= k' -> within s k' f.
Proof. destruct f; cbn; intuition lia. Qed.

Lemma iter_xO (d : positive) : forall p : positive,
  Zpos (Pos.iter xO p d) = Zpos p * 2 ^ Zpos d.
Proof.
  induction d as [|d IH] using Pos.peano_ind; intros p.
  - cbn. lia.
  - rewrite Pos.iter_succ, Pos2Z.inj_xO, IH, Pos2Z.inj_succ, Z.pow_succ_r by lia. lia.
Qed.

Lemma Zdigits2_shift (m k : Z) :
  0 < m -> 0 <= k -> Zdigits2 (m * 2 ^ k) = Zdigits2 m + k.
Proof.
  intros Hm Hk. destruct (Zdigits2_bounds m Hm) as [Hlo Hhi].
  pose proof (Zdigits2_nonneg m). pose proof (pow2_pos k Hk).
  assert (1 <= Zdigits2 m).
  { destruct m; cbn in *; lia. }
  apply Zdigits2_eq; [lia|]. split.
  - replace (Zdigits2 m + k - 1) with (Zdigits2 m - 1 + k) by lia.
    rewrite pow2_split by lia. nia.
  - rewrite pow2_split by lia. nia.
Qed.

Lemma of_int_within (z K : Z) :
  Z.abs z < 2 ^ K -> 0 <= K <= 1023 ->
  within (z <? 0) (K + 1) (of_int z).
Proof.
  intros Hz HK.
  assert (Hpos : forall (s : bool) (p : positive),
             Zpos p < 2 ^ K ->
             within s (K + 1) (binary_round prec emax s p 0)).
  { intros s p Hp. unfold binary_round, shl_align.
    assert (Hd : Zdigits2 (Zpos p) <= K) by (apply Zdigits2_le; lia).
    change (Zdigits2 (Zpos p)) with (Zpos (digits2_pos p)) in Hd.
    destruct (fexp prec emax (Zpos (digits2_pos p) + 0) - 0) as [|k|k] eqn:Hn;
      rewrite fexp_eq in Hn.
    - apply round_within; rewrite ?fexp_eq;
        change (Zdigits2 (Zpos p)) with (Zpos (digits2_pos p)); lia.
    - apply round_within; rewrite ?fexp_eq;
        change (Zdigits2 (Zpos p)) with (Zpos (digits2_pos p)); lia.
    - assert (Hdig : Zdigits2 (Zpos (Pos.iter xO p k)) = Zpos (digits2_pos p) + Zpos k).
      { rewrite iter_xO. rewrite Zdigits2_shift by lia. reflexivity. }
      apply round_within; rewrite ?Hdig, ?fexp_eq; lia. }
  destruct z as [|p|p]; cbn [of_int binary_normalize Z.ltb Z.compare].
  - reflexivity.
  - apply Hpos. lia.
  - apply Hpos. lia.
Qed.

Lemma exact_sign (z : Z) :
  match exact z with
  | S754_zero s => z = 0 /\ s = false
  | S754_finite s m e => s = (z <? 0) /\ Zpos m = Z.abs z /\ e = 0
  | _ => False
  end.
Proof. destruct z; cbn; auto. Qed.

Lemma quotient_within (a b K : Z) :
  b <> 0 -> Z.abs a < 2 ^ K -> 0 <= K <= 1023 ->
  within (xorb (a <? 0) (b <? 0)) (K + 1) (quotient a b).
Proof.
  intros Hb Ha HK. unfold quotient, div.
  destruct b as [|pb|pb]; [congruence| |];
    destruct a as [|pa|pa]; cbn [exact SFdiv Z.ltb Z.compare xorb within];
    try reflexivity.
  all: unfold SFdiv_core_binary.
  all: set (d1 := Zdigits2 (Zpos pa)); set (d2 := Zdigits2 (Zpos pb)).
  all: set (e' := Z.min (fexp prec emax (d1 + 0 - (d2 + 0))) (0 - 0)).
  all: set (m' := match 0 - 0 - e' with
                  | 0 => Zpos pa
                  | Zpos _ => Z.shiftl (Zpos pa) (0 - 0 - e')
                  | Zneg _ => 0
                  end).
  all: destruct (Z.div_eucl m' (Zpos pb)) as [q r] eqn:Hdiv.
  all: assert (He' : e' <= 0) by (unfold e'; lia).
  all: assert (Hm' : m' = Zpos pa * 2 ^ (- e')).
  1,3,5,7: (unfold m'; destruct (0 - 0 - e') as [|k|k] eqn:Hs;
            [ replace (- e') with 0 by lia; rewrite Z.pow_0_r; lia
            | rewrite Z.shiftl_mul_pow2 by lia; do 2 f_equal; lia
            | lia ]).
  all: assert (Hq : q = m' / Zpos pb)
         by (unfold Z.div; now rewrite Hdiv).
  all: destruct (Zdigits2_bounds (Zpos pa) ltac:(lia)) as [Hlo1 Hhi1];
       destruct (Zdigits2_bounds (Zpos pb) ltac:(lia)) as [Hlo2 Hhi2];
       fold d1 in Hlo1, Hhi1; fold d2 in Hlo2, Hhi2.
  all: assert (Hd1 : 1 <= d1 <= K)
         by (split; [unfold d1; cbn; lia | apply Zdigits2_le; lia]).
  all: assert (Hd2 : 1 <= d2) by (unfold d2; cbn; lia).
  all: pose proof (pow2_pos (- e') ltac:(lia)) as Hpe.
  all: assert (Hq0 : 0 <= q) by (rewrite Hq; apply Z.div_pos; nia).
  all: assert (Hqhi : Zdigits2 q <= d1 - e').
  1,3,5,7: (apply Zdigits2_le; [lia | lia |];
            replace (d1 - e') with (d1 + - e') by lia;
            rewrite pow2_split by lia;
            assert (q <= m') by (rewrite Hq; apply Z.div_le_upper_bound; nia);
            nia).
  all: assert (Hqlo : d1 - e' - d2 <= Zdigits2 q).
  1,3,5,7: (pose proof (Zdigits2_nonneg q);
            destruct (Z_le_gt_dec (d1 - e' - d2) 0) as [|Hbig]; [lia|];
            apply Zdigits2_ge; [|lia];
            rewrite Hq; apply Z.div_le_lower_bound; [lia|];
            assert (Hp : 2 ^ (d1 - 1 + - e') = 2 ^ d2 * 2 ^ (d1 - e' - d2 - 1))
              by (rewrite <- pow2_split by lia; f_equal; lia);
            rewrite pow2_split in Hp by lia;
            pose proof (pow2_pos (d1 - e' - d2 - 1) ltac:(lia));
            pose proof (pow2_pos (d1 - 1) ltac:(lia));
            nia).
  all: unfold e' in *; rewrite fexp_eq in *.
  all: apply round_within; try rewrite fexp_eq; lia.
Qed.

Lemma mul_within (s1 s2 : bool) (K1 K2 : Z) (f1 f2 : spec_float) :
  within s1 K1 f1 -> within s2 K2 f2 -> 0 <= K1 + K2 <= 1023 ->
  within (xorb s1 s2) (K1 + K2 + 1) (mul f1 f2).
Proof.
  intros H1 H2 HK. unfold mul.
  destruct f1 as [t1| | |t1 m1 e1], f2 as [t2| | |t2 m2 e2];
    cbn [within SFmul] in *; try contradiction; try (now subst).
  - destruct H2 as (-> & _). now subst.
  - destruct H1 as (-> & _). now subst.
  - destruct H1 as (-> & Hc1 & Hk1), H2 as (-> & Hc2 & Hk2).
    rewrite fexp_eq in Hc1, Hc2.
    destruct (digits_bounds m1) as [Hlo1 Hhi1], (digits_bounds m2) as [Hlo2 Hhi2].
    set (d1 := Zpos (digits2_pos m1)) in *. set (d2 := Zpos (digits2_pos m2)) in *.
    assert (Hd1 : 1 <= d1) by (unfold d1; lia).
    assert (Hd2 : 1 <= d2) by (unfold d2; lia).
    pose proof (pow2_pos (d1 - 1) ltac:(lia)). pose proof (pow2_pos (d2 - 1) ltac:(lia)).
    assert (Hhi : Zdigits2 (Zpos (m1 * m2)) <= d1 + d2).
    { apply Zdigits2_le; [lia | lia |]. rewrite pow2_split by lia.
      rewrite Pos2Z.inj_mul. nia. }
    assert (Hlo : d1 + d2 - 1 <= Zdigits2 (Zpos (m1 * m2))).
    { apply Zdigits2_ge; [|lia].
      replace (d1 + d2 - 1 - 1) with ((d1 - 1) + (d2 - 1)) by lia.
      rewrite pow2_split by lia. rewrite Pos2Z.inj_mul. nia. }
    apply round_within; try rewrite fexp_eq; lia.
Qed.

Lemma to_int_within (s : bool) (K : Z) (f : spec_float) :
  within s K f ->
  exists z, to_int f = Some z /\ (s = false -> 0 <= z) /\ (s = true -> z <= 0).
Proof.
  destruct f as [t| | |t m e]; cbn [within to_int]; try contradiction.
  - intros _. exists 0. repeat split; lia.
  - intros (-> & _ & _). eexists. split; [reflexivity|].
    assert (0 <= match e with
                 | Z.neg k => Z.shiftr (Z.pos m) (Z.pos k)
                 | _ => Z.shiftl (Z.pos m) e
                 end).
    { destruct e; [apply Z.shiftl_nonneg | apply Z.shiftl_nonneg
                   | apply Z.shiftr_nonneg]; lia. }
    destruct s; split; intros; try discriminate; lia.
Qed.

(** The operations that can raise return on values in range. *)

Lemma float_of_int_returns (z K : Z) :
  Z.abs z < 2 ^ K -> 0 <= K <= 1023 ->
  float_of_int z = Ok (of_int z) /\ within (z <? 0) (K + 1) (of_int z).
Proof.
  intros Hz HK. pose proof (of_int_within z K Hz HK) as Hw.
  split; [|exact Hw]. unfold float_of_int.
  destruct (of_int z); cbn in Hw; try contradiction; reflexivity.
Qed.

Lemma truediv_returns (a b K : Z) :
  b <> 0 -> Z.abs a < 2 ^ K -> 0 <= K <= 1023 ->
  truediv a b = Ok (quotient a b)
  /\ within (xorb (a <? 0) (b <? 0)) (K + 1) (quotient a b).
Proof.
  intros Hb Ha HK. pose proof (quotient_within a b K Hb Ha HK) as Hw.
  split; [|exact Hw]. unfold truediv.
  destruct (Z.eqb_spec b 0); [contradiction|].
  destruct (quotient a b); cbn in Hw; try contradiction; reflexivity.
Qed.

Lemma int_of_float_returns (s : bool) (K : Z) (f : spec_float) :
  within s K f ->
  exists z, int_of_float f = Ok z /\ to_int f = Some z
            /\ (s = false -> 0 <= z) /\ (s = true -> z <= 0).
Proof.
  intros Hw. destruct (to_int_within s K f Hw) as (z & Hz & Hs).
  exists z. unfold int_of_float. rewrite Hz. auto.
Qed.

Lemma scaled_returns (v K : Z) (s : bool) (K' : Z) (f : spec_float) :
  Z.abs v < 2 ^ K -> 0 <= K <= 1023 -> within s K' f -> 0 <= K + 1 + K' <= 1023 ->
  exists z,
    scaled v f = Ok z
    /\ to_int (mul (of_int v) f) = Some z
    /\ (xorb (v <? 0) s = false -> 0 <= z).
Proof.
  intros Hv HK Hf Hsum. unfold scaled.
  destruct (float_of_int_returns v K Hv HK) as [-> Hfv]. cbn [bind].
  pose proof (mul_within _ _ _ _ _ _ Hfv Hf Hsum) as Hm.
  destruct (int_of_float_returns _ _ _ Hm) as (z & -> & Hz & Hpos & _).
  exists z. auto.
Qed.

Lemma row_aspect_within (C : Config) (K : Z) :
  Z.abs (Qnum (ROW_ASPECT C)) < 2 ^ K -> 0 <= K <= 1023 ->
  within (Qnum (ROW_ASPECT C) <? 0) (K + 1) (row_aspect C).
Proof.
  intros Hq HK. unfold row_aspect, of_Q.
  pose proof (quotient_within (Qnum (ROW_ASPECT C)) (Zpos (Qden (ROW_ASPECT C))) K
                ltac:(lia) Hq HK) as Hw.
  now rewrite xorb_false_r in Hw.
Qed.

End Binary64Facts.

(** ** The canvas never raises on a row at or below the top *)

Section Canvas.

Lemma index_in_range {A} (l : list A) (i : Z) :
  0 <= i < Z.of_nat (length l) -> Py.index l i = Ok (Z.to_nat i).
Proof.
  intros H. unfold Py.index.
  destruct (Z.leb_spec 0 i); [|lia].
  destruct (Z.ltb_spec i (Z.of_nat (length l))); [reflexivity | lia].
Qed.

Lemma set_cell_shape cv r c ch :
  0 <= r < Z.of_nat (length (canvas_lines cv)) ->
  exists cv', set_cell cv r c ch = Ok cv'
              /\ canvas_W cv' = canvas_W cv
              /\ length (canvas_lines cv') = length (canvas_lines cv).
Proof.
  intros H. unfold set_cell. rewrite index_in_range by exact H. cbn.
  eexists. split; [reflexivity|]. cbn. split; [reflexivity|].
  apply length_alter.
Qed.

Lemma write_chars_shape s : forall cv r c,
  0 <= r < Z.of_nat (length (canvas_lines cv)) ->
  exists cv', write_chars cv r c s = Ok cv'
              /\ canvas_W cv' = canvas_W cv
              /\ length (canvas_lines cv') = length (canvas_lines cv).
Proof.
  induction s as [|ch s IH]; intros cv r c Hr; cbn.
  - eauto.
  - destruct ((0 <=? c) && (c <? canvas_W cv)).
    + destruct (set_cell_shape cv r c ch Hr) as (cv1 & -> & HW & HL). cbn.
      destruct (IH cv1 r (c + 1)) as (cv2 & -> & HW2 & HL2); [lia|].
      exists cv2. repeat split; congruence.
    + cbn. apply IH, Hr.
Qed.

Lemma ensure_rows_length cv rows :
  rows <= Z.of_nat (length (canvas_lines (_ensure_rows cv rows))).
Proof. unfold _ensure_rows; cbn. rewrite length_app, length_replicate. lia. Qed.

Lemma ensure_rows_grows cv rows :
  (length (canvas_lines cv) <= length (canvas_lines (_ensure_rows cv rows)))%nat.
Proof. unfold _ensure_rows; cbn. rewrite length_app. lia. Qed.

Lemma draw_rows_returns rows : forall cv r left_col,
  0 <= r -> returns (draw_rows cv r left_col rows).
Proof.
  induction rows as [|s rows IH]; intros cv r left_col Hr; cbn.
  - now exists cv.
  - pose proof (ensure_rows_length cv (r + 1)) as Hlen.
    destruct (write_chars_shape (chars s) (_ensure_rows cv (r + 1)) r left_col)
      as (cv1 & -> & _ & _); [lia|]. cbn.
    apply IH. lia.
Qed.

Lemma draw_text_block_returns E cv top_row left_col width_cols text bold :
  0 <= top_row ->
  returns (draw_text_block E cv top_row left_col width_cols text bold).
Proof.
  intros H. unfold draw_text_block.
  destruct (_ || _); [now exists cv | now apply draw_rows_returns].
Qed.

Lemma draw_ascii_image_returns cv top_row left_col art max_w :
  0 <= top_row -> returns (draw_ascii_image cv top_row left_col art max_w).
Proof.
  intros H. unfold draw_ascii_image.
  destruct (negb _); [now exists cv | now apply draw_rows_returns].
Qed.

End Canvas.

(** ** Strings *)

Section Strings.

Lemma append_cons (c : ascii) (s t : string) :
  String c s +:+ t = String c (s +:+ t).
Proof. reflexivity. Qed.

Lemma append_nil_r (s : string) : s +:+ EmptyString = s.
Proof.
  induction s as [|c s IH]; [reflexivity | now rewrite append_cons, IH].
Qed.

Lemma append_assoc (s t u : string) : (s +:+ t) +:+ u = s +:+ (t +:+ u).
Proof.
  induction s as [|c s IH]; [reflexivity | now rewrite !append_cons, IH].
Qed.

Lemma chars_append (s t : string) : chars (s +:+ t) = chars s ++ chars t.
Proof.
  induction s as [|c s IH]; [reflexivity|].
  rewrite append_cons. cbn. f_equal. exact IH.
Qed.

End Strings.

(** ** Image codec *)

Section Codec.

Lemma ramp_char_in_range (p : Z) :
  0 <= p <= 255 -> ramp_char p = Ok (spec_ramp_char p).
Proof.
  intros Hp.
  assert (Hall : forallb (fun k => match ramp_char (Z.of_nat k) with
                                   | Ok c => Ascii.eqb c (spec_ramp_char (Z.of_nat k))
                                   | Raise _ => false
                                   end) (seq 0 256) = true) by (vm_compute; reflexivity).
  rewrite forallb_forall in Hall.
  specialize (Hall (Z.to_nat p)). rewrite Z2Nat.id in Hall by lia.
  destruct (ramp_char p) as [c|e].
  - f_equal. apply Ascii.eqb_eq, Hall, in_seq. lia.
  - discriminate Hall. apply in_seq. lia.
Qed.

Lemma map_ramp_char (pixels : list Z) :
  Forall (fun p => 0 <= p <= 255) pixels ->
  map_result ramp_char pixels = Ok (map spec_ramp_char pixels).
Proof.
  induction 1 as [|p ps Hp _ IH]; cbn; [reflexivity|].
  now rewrite ramp_char_in_range, IH.
Qed.

Lemma str_chars (l : list ascii) : chars (str l) = l.
Proof. apply list_ascii_of_string_of_list_ascii. Qed.

Lemma length_str (l : list ascii) : String.length (str l) = length l.
Proof.
  induction l as [|c l IH]; [reflexivity | cbn; f_equal; exact IH].
Qed.

Lemma slices_shape (w : nat) : forall (h fuel : nat) (l : list ascii),
  (0 < w)%nat -> length l = (h * w)%nat -> (length l <= fuel)%nat ->
  length (slices fuel w l) = h
  /\ Forall (fun s => String.length s = w) (slices fuel w l)
  /\ concat (map chars (slices fuel w l)) = l.
Proof.
  induction h as [|h IH]; intros fuel l Hw Hl Hf.
  - destruct l; [|discriminate]. destruct fuel; cbn; auto.
  - destruct fuel as [|fuel]; [cbn in *; lia|].
    destruct l as [|c l']; [cbn in Hl; lia|].
    assert (Heq : slices (S fuel) w (c :: l')
                  = str (take w (c :: l')) :: slices fuel w (drop w (c :: l')))
      by reflexivity.
    rewrite Heq. clear Heq. remember (c :: l') as l eqn:El. clear El.
    destruct (IH fuel (drop w l)) as (H1 & H2 & H3); [lia | | |].
    + rewrite length_drop. lia.
    + rewrite length_drop. lia.
    + cbn [length map concat]. split; [now rewrite H1|]. split.
      * constructor; [|exact H2]. cbn beta. rewrite length_str, length_take. lia.
      * rewrite str_chars, H3. apply take_drop.
Qed.

Lemma join_nl_unlines (ls : list string) :
  ls <> [] -> join nl ls +:+ nl = unlines ls.
Proof.
  induction ls as [|l ls IH]; [congruence|]. intros _.
  destruct ls as [|l' ls]; [cbn [join unlines]; now rewrite append_nil_r|].
  change (join nl (l :: l' :: ls)) with (l +:+ nl +:+ join nl (l' :: ls)).
  change (unlines (l :: l' :: ls)) with (l +:+ nl +:+ unlines (l' :: ls)).
  rewrite <- IH by congruence.
  now rewrite !append_assoc.
Qed.

End Codec.

Section CodecClaims.

Variables (E : Env) (C : Config).

Lemma ascii_height_returns (im : Image) (w : Z) :
  im_width im <> 0 ->
  Z.abs w < 2 ^ 53 -> Z.abs (im_height im) < 2 ^ 53 ->
  Z.abs (Qnum (ROW_ASPECT C)) < 2 ^ 53 ->
  exists t,
    Binary64.to_int
      (Binary64.mul
         (Binary64.mul (Binary64.of_int (im_height im))
            (Binary64.quotient w (im_width im)))
         (Binary64.of_Q (ROW_ASPECT C))) = Some t
    /\ ascii_height C im w = Ok (Z.max 1 t).
Proof.
  intros Hwd Hw Hh Hq. unfold ascii_height.
  assert (HK : 0 <= 53 <= 1023) by lia.
  destruct (truediv_returns w (im_width im) 53 Hwd Hw HK) as [-> Hr]. cbn [bind].
  destruct (float_of_int_returns (im_height im) 53 Hh HK) as [-> Hf]. cbn [bind].
  assert (Hm : Binary64.within
                 (xorb (im_height im <? 0) (xorb (w <? 0) (im_width im <? 0)))
                 (53 + 1 + (53 + 1) + 1)
                 (Binary64.mul (Binary64.of_int (im_height im))
                    (Binary64.quotient w (im_width im))))
    by (apply mul_within; [exact Hf | exact Hr | lia]).
  pose proof (row_aspect_within C 53 Hq HK) as Ha.
  assert (Hm2 : Binary64.within
                  (xorb (xorb (im_height im <? 0) (xorb (w <? 0) (im_width im <? 0)))
                     (Qnum (ROW_ASPECT C) <? 0))
                  (53 + 1 + (53 + 1) + 1 + (53 + 1) + 1)
                  (Binary64.mul
                     (Binary64.mul (Binary64.of_int (im_height im))
                        (Binary64.quotient w (im_width im)))
                     (row_aspect C)))
    by (apply mul_within; [exact Hm | exact Ha | lia]).
  destruct (int_of_float_returns _ _ _ Hm2) as (t & Hi & Ht & _).
  exists t. split; [exact Ht|]. rewrite Hi. reflexivity.
Qed.

Lemma img_bytes_to_ascii_returns (b : bytes) (width_ : Z) :
  returns (img_bytes_to_ascii E C b width_).
Proof.
  unfold img_bytes_to_ascii, try_except.
  destruct (negb (HAVE_PIL E)); [eexists; reflexivity|].
  destruct (ascii_body E C b width_); eexists; reflexivity.
Qed.

Lemma _ascii_for_returns (url : string) : returns (_ascii_for E C url).
Proof.
  unfold _ascii_for, try_except.
  destruct (fetch_bytes E url) as [[data ctype]|e]; cbn; [|eexists; reflexivity].
  destruct (_ && _); [eexists; reflexivity|].
  destruct (img_bytes_to_ascii_returns data (ASCII_IMG_W C)) as [s ->].
  eexists; reflexivity.
Qed.



End CodecClaims.

(** C3 (as amended): for every decodable image and every requested
    width, the codec returns exactly [h] lines of exactly [w] characters,
    each line followed by a newline, where [w = max(20, requestedWidth)]
    and [h = max(1, int(sourceHeight * (w / sourceWidth) * rowAspect))],
    the quotient and the two products being rounded to binary64 and [int]
    truncating toward zero; the characters are, pixel after pixel of the
    resampled image, the ramp characters at index
    [floor(luminance / 255 * 9)].  The height is defined for every image
    and width below [2^53]. *)
Theorem codec_output_shape (E : Env) (C : Config) (b : bytes) (width_ : Z)
  (im : Image) :
  let w := Z.max 20 width_ in
  HAVE_PIL E = true ->
  Image_open_L E b = Ok im ->
  im_width im <> 0 ->
  w < 2 ^ 53 -> Z.abs (im_height im) < 2 ^ 53 ->
  Z.abs (Qnum (ROW_ASPECT C)) < 2 ^ 53 ->
  exists t : Z,
    Binary64.to_int
      (Binary64.mul
         (Binary64.mul (Binary64.of_int (im_height im))
            (Binary64.quotient w (im_width im)))
         (Binary64.of_Q (ROW_ASPECT C))) = Some t
    /\ forall im' : Image,
         Image_resize E im w (Z.max 1 t) = Ok im' ->
         length (im_data im') = Z.to_nat (w * Z.max 1 t) ->
         Forall (fun p => 0 <= p <= 255) (im_data im') ->
         exists lines : list string,
           img_bytes_to_ascii E C b width_ = Ok (unlines lines)
           /\ Z.of_nat (length lines) = Z.max 1 t
           /\ Forall (fun l => len l = w) lines
           /\ concat (map chars lines) = map spec_ramp_char (im_data im').
Proof.
  intros w Hpil Hopen Hwidth Hwr Hhr Har.
  assert (Hw : 20 <= w) by (unfold w; lia).
  destruct (ascii_height_returns C im w Hwidth ltac:(lia) Hhr Har) as (t & Ht & Hh).
  exists t. split; [exact Ht|].
  set (h := Z.max 1 t) in *. intros im' Hres Hlen Hpix.
  assert (Hh1 : 1 <= h) by (unfold h; lia).
  set (cs := map spec_ramp_char (im_data im')).
  assert (Hcs : length cs = (Z.to_nat h * Z.to_nat w)%nat).
  { unfold cs. rewrite length_map, Hlen. rewrite Z.mul_comm. apply Z2Nat.inj_mul; lia. }
  destruct (slices_shape (Z.to_nat w) (Z.to_nat h) (length cs) cs)
    as (H1 & H2 & H3); [lia | exact Hcs | lia |].
  exists (slices (length cs) (Z.to_nat w) cs).
  split; [|split; [|split]].
  - unfold img_bytes_to_ascii, ascii_body. rewrite Hpil. cbn [negb].
    rewrite Hopen. cbn [bind]. fold w.
    rewrite Hh. cbn [bind].
    rewrite Hres. cbn [bind]. rewrite (map_ramp_char _ Hpix). cbn [bind try_except].
    fold cs. f_equal. apply join_nl_unlines.
    intros Hnil. rewrite Hnil in H1. cbn in H1. lia.
  - rewrite H1. lia.
  - eapply Forall_impl; [exact H2|]. intros l Hl. unfold len. rewrite Hl. lia.
  - exact H3.
Qed.

(** The codec on the 20 x 3 gradient, asked for 20 columns. *)
Lemma codec_output_shape_witness :
  exists lines : list string,
    img_bytes_to_ascii (Double.env [] []) default_config Double.gradient_20x3 20
    = Ok (unlines lines)
    /\ Z.of_nat (length lines) = 1
    /\ Forall (fun l => len l = 20) lines.
Proof.
  destruct (codec_output_shape (Double.env [] []) default_config
              Double.gradient_20x3 20
              {| im_width := 20; im_height := 3;
                 im_data := map (fun k => Z.of_nat ((k mod 20) * 13)) (seq 0 60) |})
    as (t & Ht & Hshape).
  - reflexivity.
  - vm_compute. reflexivity.
  - cbn. lia.
  - vm_compute. reflexivity.
  - vm_compute. reflexivity.
  - vm_compute. reflexivity.
  - assert (Ht1 : t = 1) by (vm_compute in Ht; congruence).
    subst t.
    destruct (Hshape {| im_width := 20; im_height := 1;
                        im_data := map (fun k => Z.of_nat (k * 13)) (seq 0 20) |})
      as (lines & H1 & H2 & H3 & _).
    + vm_compute. reflexivity.
    + vm_compute. reflexivity.
    + vm_compute. repeat constructor; discriminate.
    + exists lines. split; [exact H1|]. split; [exact H2 | exact H3].
Defined.

(** C3, as stated, fails: on the 20 x 3 gradient at 20 columns the
    specification's height is [round(1.56) = 2], and the codec returns one
    line.  The rounding of binary64 shows as well: a 156 x 45 image at 20
    columns has the exact height [45 * 20 * 0.52 / 156 = 3], and the codec
    computes 2. *)
Lemma codec_height_truncates :
  exists out,
    img_bytes_to_ascii (Double.env [] []) default_config Double.gradient_20x3 20
    = Ok out
    /\ length (splitlines out) = 1%nat
    /\ spec_ascii_height default_config
         {| im_width := 20; im_height := 3; im_data := [] |} 20 = 2
    /\ ascii_height default_config
         {| im_width := 156; im_height := 45; im_data := [] |} 20 = Ok 2
    /\ Py.int (45 * (20 / 156) * ROW_ASPECT default_config)%Q = 3.
Proof.
  eexists. split; [vm_compute; reflexivity|].
  split; [vm_compute; reflexivity|].
  split; [vm_compute; reflexivity|].
  split; vm_compute; reflexivity.
Qed.




(** C5 (as amended): [rect_iou] is symmetric and lies in [0, 1] for all
    rectangles, degenerate ones included; it is 0 for disjoint
    rectangles; [rect_iou(a, a)] is 1 for every rectangle of positive
    width and height, and 0 for a degenerate one. *)
Theorem rect_iou_laws (a b : Rect) :
  rect_iou a b = rect_iou b a
  /\ (0 <= rect_iou a b <= 1)%Q
  /\ (forall x y w h, a = (x, y, w, h) -> 0 < w -> 0 < h -> (rect_iou a a == 1)%Q)
  /\ (forall x y w h, a = (x, y, w, h) -> w <= 0 \/ h <= 0 -> rect_iou a a = 0%Q)
  /\ (disjoint_rects a b -> rect_iou a b = 0%Q).
Proof.
  split; [apply rect_iou_sym|].
  split; [apply rect_iou_unit|].
  split; [intros x y w h ->; apply rect_iou_self_proper|].
  split; [intros x y w h ->; apply rect_iou_self_degenerate|].
  apply rect_iou_disjoint.
Qed.

Lemma rect_iou_laws_witness :
  Qeq (rect_iou (0, 0, 4, 2) (0, 0, 4, 2)) 1%Q
  /\ rect_iou (3, 3, 0, 5) (3, 3, 0, 5) = 0%Q
  /\ rect_iou (0, 0, 4, 2) (10, 10, 3, 3) = 0%Q.
Proof.
  split; [|split].
  - destruct (rect_iou_laws (0, 0, 4, 2) (0, 0, 4, 2)) as (_ & _ & H & _).
    apply (H 0 0 4 2); [reflexivity | lia | lia].
  - destruct (rect_iou_laws (3, 3, 0, 5) (3, 3, 0, 5)) as (_ & _ & _ & H & _).
    apply (H 3 3 0 5); [reflexivity | lia].
  - destruct (rect_iou_laws (0, 0, 4, 2) (10, 10, 3, 3)) as (_ & _ & _ & _ & H).
    apply H. intros px py [[? ?] [? ?]]. lia.
Defined.

(** C5, as stated, fails on a degenerate rectangle: the overlap of a
    rectangle of width 0 with itself is empty, and [rect_iou] returns 0. *)
Lemma rect_iou_self_degenerate_not_one :
  ~ Qeq (rect_iou (3, 3, 0, 5) (3, 3, 0, 5)) 1%Q.
Proof. vm_compute. discriminate. Qed.

(** ** Projection *)

Section Projection.

Lemma viewport_width_ge (nodes : list Node) : 1200 <= viewport_width nodes.
Proof.
  unfold viewport_width. induction nodes as [|m ms IH]; cbn; lia.
Qed.

Lemma viewport_width_covers (nodes : list Node) :
  Forall (fun m => n_x m + n_w m <= viewport_width nodes) nodes.
Proof.
  unfold viewport_width. induction nodes as [|m ms IH]; constructor; cbn.
  - lia.
  - eapply Forall_impl; [exact IH|]. cbn. intros; lia.
Qed.

Lemma viewport_width_attained (nodes : list Node) :
  viewport_width nodes = 1200
  \/ exists m, m ∈ nodes /\ viewport_width nodes = n_x m + n_w m.
Proof.
  unfold viewport_width. induction nodes as [|m ms IH]; cbn; [now left|].
  destruct (Z.max_spec (n_x m + n_w m)
              (fold_right Z.max 1200 (map (fun n => n_x n + n_w n) ms)))
    as [[_ ->]|[_ ->]].
  - destruct IH as [IH|(k & Hk & IH)]; [now left|].
    right. exists k. split; [now apply list_elem_of_further | exact IH].
  - right. exists m. split; [apply list_elem_of_here | reflexivity].
Qed.

(** The projection returns on rectangles and widths in range; what it
    returns is [int] of the binary64 products, and a component of a
    non-negative coordinate is not negative. *)
Lemma project_returns (C : Config) (width_ vp_w : Z) (n : Node) :
  vp_w <> 0 ->
  Z.abs width_ < 2 ^ 53 ->
  Z.abs (Qnum (ROW_ASPECT C)) < 2 ^ 53 ->
  Z.abs (n_x n) < 2 ^ 53 -> Z.abs (n_y n) < 2 ^ 53 ->
  Z.abs (n_w n) < 2 ^ 53 -> Z.abs (n_h n) < 2 ^ 53 ->
  let sx := Binary64.quotient width_ vp_w in
  let sy := Binary64.mul sx (Binary64.of_Q (ROW_ASPECT C)) in
  exists col row w h,
    scale_x width_ vp_w = Ok sx
    /\ project C width_ vp_w n = Ok (col, row, Z.max 6 w, Z.max 1 h)
    /\ Binary64.to_int (Binary64.mul (Binary64.of_int (n_x n)) sx) = Some col
    /\ Binary64.to_int (Binary64.mul (Binary64.of_int (n_y n)) sy) = Some row
    /\ Binary64.to_int (Binary64.mul (Binary64.of_int (n_w n)) sx) = Some w
    /\ Binary64.to_int (Binary64.mul (Binary64.of_int (n_h n)) sy) = Some h
    /\ (0 <= width_ -> 0 < vp_w -> 0 <= n_x n -> 0 <= col)
    /\ (0 <= width_ -> 0 < vp_w -> 0 <= Qnum (ROW_ASPECT C) -> 0 <= n_y n ->
        0 <= row).
Proof.
  intros Hvp Hw Ha Hx Hy Hnw Hnh sx sy.
  assert (HK : 0 <= 53 <= 1023) by lia.
  destruct (truediv_returns width_ vp_w 53 Hvp Hw HK) as [Hsx Hwx]. fold sx in Hsx, Hwx.
  pose proof (row_aspect_within C 53 Ha HK) as Hwa.
  assert (Hwy : Binary64.within
                  (xorb (xorb (width_ <? 0) (vp_w <? 0)) (Qnum (ROW_ASPECT C) <? 0))
                  (53 + 1 + (53 + 1) + 1) sy)
    by (apply mul_within; [exact Hwx | exact Hwa | lia]).
  destruct (scaled_returns (n_x n) 53 _ _ sx Hx HK Hwx ltac:(lia))
    as (col & Hc1 & Hc2 & Hc3).
  destruct (scaled_returns (n_y n) 53 _ _ sy Hy HK Hwy ltac:(lia))
    as (row & Hr1 & Hr2 & Hr3).
  destruct (scaled_returns (n_w n) 53 _ _ sx Hnw HK Hwx ltac:(lia))
    as (w & Hw1 & Hw2 & _).
  destruct (scaled_returns (n_h n) 53 _ _ sy Hnh HK Hwy ltac:(lia))
    as (h & Hh1 & Hh2 & _).
  exists col, row, w, h.
  split; [exact Hsx|]. split.
  { unfold project, scale_x. rewrite Hsx. cbn [bind].
    unfold scale_y, row_aspect. fold sx sy.
    rewrite Hc1. cbn [bind]. rewrite Hr1. cbn [bind]. rewrite Hw1. cbn [bind].
    rewrite Hh1. reflexivity. }
  do 4 (split; [assumption|]).
  split.
  - intros H0 H1 H2. apply Hc3.
    replace (n_x n <? 0) with false by (symmetry; apply Z.ltb_ge; lia).
    replace (width_ <? 0) with false by (symmetry; apply Z.ltb_ge; lia).
    replace (vp_w <? 0) with false by (symmetry; apply Z.ltb_ge; lia).
    reflexivity.
  - intros H0 H1 H2 H3. apply Hr3.
    replace (n_y n <? 0) with false by (symmetry; apply Z.ltb_ge; lia).
    replace (width_ <? 0) with false by (symmetry; apply Z.ltb_ge; lia).
    replace (vp_w <? 0) with false by (symmetry; apply Z.ltb_ge; lia).
    replace (Qnum (ROW_ASPECT C) <? 0) with false by (symmetry; apply Z.ltb_ge; lia).
    reflexivity.
Qed.

End Projection.

(** C4 (as amended): with [vp] the maximum of [x + w] over the snapshot,
    floored at 1200, [scaleX] is the float nearest to [W / vp] and
    [scaleY] the float product [scaleX * rowAspect]; a node is projected to
    [col = int(x * scaleX)], [row = int(y * scaleY)],
    [widthCols = max(6, int(w * scaleX))] and
    [heightRows = max(1, int(h * scaleY))], every product being rounded to
    binary64 and [int] truncating toward zero.  [widthCols >= 6] and
    [heightRows >= 1] for every rectangle, zero and negative sizes
    included; [col] and [row] are not negative for a non-negative position,
    width and row aspect; and the computation returns for every rectangle
    and width below [2^53] in magnitude. *)
Theorem projection_total_clamped (C : Config) (width_ : Z) (nodes : list Node)
  (n : Node) :
  Z.abs width_ < 2 ^ 53 ->
  Z.abs (Qnum (ROW_ASPECT C)) < 2 ^ 53 ->
  Z.abs (n_x n) < 2 ^ 53 -> Z.abs (n_y n) < 2 ^ 53 ->
  Z.abs (n_w n) < 2 ^ 53 -> Z.abs (n_h n) < 2 ^ 53 ->
  let vp := viewport_width nodes in
  let sx := Binary64.quotient width_ vp in
  let sy := Binary64.mul sx (Binary64.of_Q (ROW_ASPECT C)) in
  (1200 <= vp
   /\ Forall (fun m => n_x m + n_w m <= vp) nodes
   /\ (vp = 1200 \/ exists m, m ∈ nodes /\ vp = n_x m + n_w m))
  /\ truediv width_ vp = Ok sx
  /\ exists col row wc hr w h,
      project C width_ vp n = Ok (col, row, wc, hr)
      /\ Binary64.to_int (Binary64.mul (Binary64.of_int (n_x n)) sx) = Some col
      /\ Binary64.to_int (Binary64.mul (Binary64.of_int (n_y n)) sy) = Some row
      /\ Binary64.to_int (Binary64.mul (Binary64.of_int (n_w n)) sx) = Some w
      /\ Binary64.to_int (Binary64.mul (Binary64.of_int (n_h n)) sy) = Some h
      /\ wc = Z.max 6 w /\ hr = Z.max 1 h
      /\ 6 <= wc /\ 1 <= hr
      /\ (0 <= width_ -> 0 <= n_x n -> 0 <= col)
      /\ (0 <= width_ -> 0 <= Qnum (ROW_ASPECT C) -> 0 <= n_y n -> 0 <= row).
Proof.
  intros Hw Ha Hx Hy Hnw Hnh vp sx sy.
  pose proof (viewport_width_ge nodes) as Hvp. fold vp in Hvp.
  split; [split; [exact Hvp | split;
            [apply viewport_width_covers | apply viewport_width_attained]]|].
  destruct (project_returns C width_ vp n ltac:(lia) Hw Ha Hx Hy Hnw Hnh)
    as (col & row & w & h & Hs & Hp & Hc & Hr & Hw' & Hh' & Hcol & Hrow).
  split; [exact Hs|].
  exists col, row, (Z.max 6 w), (Z.max 1 h), w, h.
  split; [exact Hp|]. do 4 (split; [assumption|]).
  split; [reflexivity|]. split; [reflexivity|].
  split; [lia|]. split; [lia|].
  split.
  - intros H0 H1. apply Hcol; lia.
  - intros H0 H1 H2. apply Hrow; lia.
Qed.

(** A node of negative height, on a terminal 110 columns wide: half of
    the 1200 pixels of the viewport come to 54 columns. *)
Lemma projection_total_clamped_witness :
  project default_config 110 1200 (Double.node "div" 300 40 600 (-20) EmptyString)
  = Ok (27, 1, 54, 1).
Proof.
  pose (n := Double.node "div" 300 40 600 (-20) EmptyString).
  destruct (projection_total_clamped default_config 110 [n] n)
    as (_ & _ & col & row & wc & hr & w & h & Hp & Hc & Hr & Hw & Hh & -> & -> & _);
    [vm_compute; reflexivity | vm_compute; reflexivity | vm_compute; reflexivity
    | vm_compute; reflexivity | vm_compute; reflexivity | vm_compute; reflexivity |].
  change (project default_config 110 (viewport_width [n]) n = Ok (27, 1, 54, 1)).
  rewrite Hp.
  vm_compute in Hc, Hr, Hw, Hh.
  injection Hc as <-. injection Hr as <-. injection Hw as <-. injection Hh as <-.
  reflexivity.
Defined.

(** C4, as stated, fails where the exact product is an integer that the
    rounded product does not reach: at the default width 110, a block 600
    pixels wide on a viewport of 1200 gets [int(54.99999999999999) = 54]
    columns, and [floor(600 * 110 / 1200) = 55]. *)
Lemma projection_below_exact_floor :
  let n := Double.node "div" 300 40 600 20 EmptyString in
  project default_config 110 (viewport_width [n]) n = Ok (27, 1, 54, 1)
  /\ spec_project default_config 110 (viewport_width [n]) n = (27, 1, 55, 1).
Proof. vm_compute. split; reflexivity. Qed.

(** ** Registries *)

Section Registry.

Lemma list_index_sound (x : string) (l : list string) (i : Z) :
  list_index x l = Ok i -> 0 <= i /\ l !! Z.to_nat i = Some x.
Proof.
  revert i. induction l as [|y l IH]; intros i; cbn; [discriminate|].
  destruct (String.eqb_spec y x) as [->|Hne].
  - intros [= <-]. split; [lia | reflexivity].
  - destruct (list_index x l) as [j|e]; cbn; [|discriminate].
    intros [= <-]. destruct (IH j eq_refl) as [Hj Hl].
    split; [lia|]. replace (Z.to_nat (j + 1)) with (S (Z.to_nat j)) by lia.
    exact Hl.
Qed.

Lemma list_index_found (x : string) (l : list string) :
  x ∈ l -> exists i, list_index x l = Ok i.
Proof.
  induction l as [|y l IH]; intros Hin; [now apply elem_of_nil in Hin|].
  cbn. destruct (String.eqb_spec y x) as [->|Hne]; [eauto|].
  apply elem_of_cons in Hin as [->|Hin]; [congruence|].
  destruct (IH Hin) as [i ->]. cbn. eauto.
Qed.

Lemma register_spec (u : string) (seen : gset string) (reg : list string) :
  registry_ok seen reg ->
  registry_ok (register u seen reg).1 (register u seen reg).2
  /\ (register u seen reg).2 = (if bool_decide (u ∈ reg) then reg else reg ++ [u])
  /\ u ∈ (register u seen reg).2.
Proof.
  intros [Hnd Hseen]. unfold register.
  destruct (bool_decide_reflect (u ∈ seen)) as [Hin|Hnin]; cbn.
  - assert (u ∈ reg) by now apply Hseen.
    rewrite bool_decide_eq_true_2 by assumption.
    repeat split; auto; apply Hseen.
  - assert (u ∉ reg) by (intros ?; now apply Hnin, Hseen).
    rewrite bool_decide_eq_false_2 by assumption.
    split; [split|split].
    + apply NoDup_app. split; [exact Hnd|]. split; [|apply NoDup_singleton].
      intros x Hx Hxu. apply list_elem_of_singleton in Hxu. congruence.
    + intros x. rewrite elem_of_union, elem_of_singleton, elem_of_app,
        list_elem_of_singleton, Hseen. tauto.
    + reflexivity.
    + apply elem_of_app. right. now apply list_elem_of_singleton.
Qed.

Lemma first_seen_snoc (l : list string) (u : string) :
  first_seen (l ++ [u])
  = if bool_decide (u ∈ first_seen l) then first_seen l else first_seen l ++ [u].
Proof. unfold first_seen. now rewrite fold_left_app. Qed.

Lemma refs_ok_grow (reg ext : list string) (refs : list (string * Z)) :
  refs_ok reg refs -> refs_ok (reg ++ ext) refs.
Proof.
  unfold refs_ok. intros H. eapply Forall_impl; [exact H|].
  intros [u idx] [H1 H2].
  split; [exact H1 | now apply lookup_app_l_Some].
Qed.

Lemma refs_ok_elem (reg : list string) (refs : list (string * Z)) u idx :
  refs_ok reg refs -> (u, idx) ∈ refs ->
  1 <= idx /\ reg !! Z.to_nat (idx - 1) = Some u.
Proof.
  unfold refs_ok. rewrite Forall_forall. intros H Hin. exact (H _ Hin).
Qed.

Lemma listing_lookup (l : list string) : forall (k : Z) (i : nat) (h : string),
  l !! i = Some h ->
  listing k l !! i
  = Some ("[" +:+ pretty (k + Z.of_nat i) +:+ "] <" +:+ h +:+ ">").
Proof.
  induction l as [|x l IH]; intros k i h; [discriminate|].
  destruct i as [|i]; intros H.
  - injection H as ->. cbn [listing]. now rewrite Z.add_0_r.
  - cbn [listing]. transitivity (listing (k + 1) l !! i); [reflexivity|].
    rewrite (IH (k + 1) i h H).
    now replace (k + 1 + Z.of_nat i) with (k + Z.of_nat (S i)) by lia.
Qed.

(** A registration of [u], painted with the index [idx], keeps the
    registry's invariants. *)
Lemma registered_ok (seen : gset string) (reg : list string)
  (refs : list (string * Z)) (u : string) (i : Z) :
  registry_ok seen reg ->
  reg = first_seen (map fst refs) ->
  refs_ok reg refs ->
  list_index u (register u seen reg).2 = Ok i ->
  registry_ok (register u seen reg).1 (register u seen reg).2
  /\ (register u seen reg).2 = first_seen (map fst (refs ++ [(u, i + 1)]))
  /\ refs_ok (register u seen reg).2 (refs ++ [(u, i + 1)]).
Proof.
  intros Hok Hord Hrefs Hidx.
  destruct (register_spec u seen reg Hok) as (Hok' & Hreg' & _).
  split; [exact Hok'|]. split.
  - rewrite map_app. cbn [map fst]. rewrite first_seen_snoc, <- Hord. exact Hreg'.
  - apply Forall_app. split.
    + rewrite Hreg'. destruct (bool_decide (u ∈ reg)); [exact Hrefs|].
      now apply refs_ok_grow.
    + repeat constructor; cbn [fst snd].
      * apply list_index_sound in Hidx. lia.
      * apply list_index_sound in Hidx. replace (i + 1 - 1) with i by lia. tauto.
Qed.

End Registry.

(** ** What one loop iteration does *)

Section LoopBody.

Variables (E : Env) (C : Config) (K : Ctx).

Lemma image_block_effect st n x y w h u st' :
  image_block E C K st n (x, y, w, h) u = Ok st' ->
  exists i,
    list_index u (register u (img_seen st) (image_map st)).2 = Ok i
    /\ img_seen st' = (register u (img_seen st) (image_map st)).1
    /\ image_map st' = (register u (img_seen st) (image_map st)).2
    /\ link_map st' = link_map st /\ link_seen st' = link_seen st
    /\ placed_text_rects st' = placed_text_rects st
    /\ ((cx_auto_image K && (auto_img_count st <? AUTO_IMG_MAX C) = true
         /\ auto_img_count st' = auto_img_count st + 1
         /\ exists art,
             trace st' = trace st ++ [DrewPlaceholder n u (i + 1); Converted n u art])
        \/ (cx_auto_image K && (auto_img_count st <? AUTO_IMG_MAX C) = false
            /\ auto_img_count st' = auto_img_count st
            /\ trace st' = trace st ++ [DrewPlaceholder n u (i + 1)])).
Proof.
  unfold image_block.
  destruct (register u (img_seen st) (image_map st)) as [seen' reg'] eqn:Hreg.
  cbn [fst snd].
  destruct (list_index u reg') as [i|e]; cbn [bind]; [|discriminate].
  destruct (draw_text_block E (canvas st) y x w _ false) as [cv|e];
    cbn [bind]; [|discriminate].
  destruct (cx_auto_image K && (auto_img_count st <? AUTO_IMG_MAX C)) eqn:Hbudget.
  - destruct (_ascii_for E C u) as [art|e]; cbn [bind]; [|discriminate].
    destruct (draw_ascii_image cv (y + 1) x art _) as [cv'|e];
      cbn [bind]; [|discriminate].
    intros [= <-]. exists i. cbn. repeat split; auto.
    left. repeat split; auto. exists art. now rewrite <- app_assoc.
  - intros [= <-]. exists i. cbn. repeat split; auto.
Qed.

Lemma text_block_effect st n r st' :
  text_block E K st n r = Ok st' ->
  image_map st' = image_map st /\ img_seen st' = img_seen st
  /\ auto_img_count st' = auto_img_count st
  /\ conversions (trace st') = conversions (trace st)
  /\ placeholder_refs (trace st') = placeholder_refs (trace st)
  /\ ((nonempty (n_txt n) && _should_draw_text_node n = false /\ st' = st)
      \/ (nonempty (n_txt n) && _should_draw_text_node n = true
          /\ is_duplicate r (upto 24 (n_txt n)) (placed_text_rects st) = true
          /\ trace st' = trace st ++ [Dropped n]
          /\ canvas st' = canvas st
          /\ link_map st' = link_map st /\ link_seen st' = link_seen st
          /\ placed_text_rects st' = placed_text_rects st)
      \/ (nonempty (n_txt n) && _should_draw_text_node n = true
          /\ is_duplicate r (upto 24 (n_txt n)) (placed_text_rects st) = false
          /\ placed_text_rects st'
             = placed_text_rects st ++ [(r, upto 24 (n_txt n))]
          /\ ((is_linked E K n = false
               /\ trace st' = trace st ++ [DrewText n (n_txt n) (is_bold n) None]
               /\ link_map st' = link_map st /\ link_seen st' = link_seen st)
              \/ (is_linked E K n = true
                  /\ exists i,
                      list_index (n_href n)
                        (register (n_href n) (link_seen st) (link_map st)).2 = Ok i
                      /\ link_seen st'
                         = (register (n_href n) (link_seen st) (link_map st)).1
                      /\ link_map st'
                         = (register (n_href n) (link_seen st) (link_map st)).2
                      /\ trace st'
                         = trace st
                           ++ [DrewText n
                                 (n_txt n +:+ " [" +:+ pretty (i + 1) +:+ "]")
                                 (is_bold n) (Some (n_href n, i + 1))])))).
Proof.
  unfold text_block. destruct r as [[[x y] w] h].
  destruct (nonempty (n_txt n) && _should_draw_text_node n) eqn:Hel.
  2:{ intros [= <-]. repeat split; auto. }
  destruct (is_duplicate _ _ _) eqn:Hdup.
  { intros [= <-]. cbn.
    unfold conversions, placeholder_refs. rewrite !flat_map_app. cbn.
    rewrite !app_nil_r. repeat split; auto. right. left. repeat split; auto. }
  destruct (is_linked E K n) eqn:Hlk.
  - destruct (register (n_href n) (link_seen st) (link_map st))
      as [seen' reg'] eqn:Hreg. cbn [fst snd].
    destruct (list_index (n_href n) reg') as [i|e]; cbn [bind]; [|discriminate].
    destruct (draw_text_block E (canvas st) y x w _ (is_bold n)) as [cv|e];
      cbn [bind]; [|discriminate].
    intros [= <-]. cbn.
    unfold conversions, placeholder_refs. rewrite !flat_map_app. cbn.
    rewrite !app_nil_r. repeat split; auto. right. right. repeat split; auto.
    right. split; [reflexivity|]. exists i. repeat split; auto.
  - cbn [bind].
    destruct (draw_text_block E (canvas st) y x w _ (is_bold n)) as [cv|e];
      cbn [bind]; [|discriminate].
    intros [= <-]. cbn.
    unfold conversions, placeholder_refs. rewrite !flat_map_app. cbn.
    rewrite !app_nil_r. repeat split; auto. right. right. repeat split; auto.
Qed.

End LoopBody.

(** ** The registry invariant of the compositing pass *)

Section LoopInvariant.

Variables (E : Env) (C : Config) (K : Ctx).

Lemma Inv_init (width_ : Z) : Inv (loop_init width_).
Proof.
  constructor; cbn; try reflexivity; try apply Forall_nil_2.
  - split; [apply NoDup_nil_2|]. intros u. rewrite elem_of_nil. set_solver.
  - split; [apply NoDup_nil_2|]. intros u. rewrite elem_of_nil. set_solver.
Qed.

Lemma image_block_Inv st n r u st' :
  Inv st -> image_block E C K st n r u = Ok st' -> Inv st'.
Proof.
  intros HI Hst. destruct r as [[[x y] w] h].
  destruct (image_block_effect E C K _ _ _ _ _ _ _ _ Hst)
    as (i & Hidx & Hseen & Hmap & Hlm & Hls & _ & Hcase).
  assert (Hrefs : placeholder_refs (trace st')
                  = placeholder_refs (trace st) ++ [(u, i + 1)]
                  /\ link_refs (trace st') = link_refs (trace st)).
  { destruct Hcase as [(_ & _ & art & ->)|(_ & _ & ->)];
      unfold placeholder_refs, link_refs; rewrite !flat_map_app; cbn;
      now rewrite ?app_nil_r. }
  destruct Hrefs as [Hp Hl].
  destruct (registered_ok (img_seen st) (image_map st)
              (placeholder_refs (trace st)) u i)
    as (H1 & H2 & H3);
    [apply HI | apply HI | apply HI | exact Hidx |].
  constructor.
  - now rewrite Hseen, Hmap.
  - rewrite Hls, Hlm. apply HI.
  - now rewrite Hmap, Hp.
  - rewrite Hlm, Hl. apply HI.
  - now rewrite Hmap, Hp.
  - rewrite Hlm, Hl. apply HI.
Qed.

Lemma text_block_Inv st n r st' :
  Inv st -> text_block E K st n r = Ok st' -> Inv st'.
Proof.
  intros HI Hst.
  destruct (text_block_effect E K _ _ _ _ Hst)
    as (Him & Hseen & _ & _ & Hp & Hcase).
  destruct Hcase as [[_ ->]|[Hdrop|Hkept]]; [exact HI| |].
  - destruct Hdrop as (_ & _ & Htr & _ & Hlm & Hls & _).
    assert (Hl : link_refs (trace st') = link_refs (trace st)).
    { rewrite Htr. unfold link_refs. rewrite flat_map_app. cbn.
      now rewrite app_nil_r. }
    constructor; rewrite ?Him, ?Hseen, ?Hp, ?Hlm, ?Hls, ?Hl; apply HI.
  - destruct Hkept as (_ & _ & _ & [Hplain|Hlinked]).
    + destruct Hplain as (_ & Htr & Hlm & Hls).
      assert (Hl : link_refs (trace st') = link_refs (trace st)).
      { rewrite Htr. unfold link_refs. rewrite flat_map_app. cbn.
        now rewrite app_nil_r. }
      constructor; rewrite ?Him, ?Hseen, ?Hp, ?Hlm, ?Hls, ?Hl; apply HI.
    + destruct Hlinked as (_ & i & Hidx & Hls & Hlm & Htr).
      assert (Hl : link_refs (trace st')
                   = link_refs (trace st) ++ [(n_href n, i + 1)]).
      { rewrite Htr. unfold link_refs. now rewrite flat_map_app. }
      destruct (registered_ok (link_seen st) (link_map st)
                  (link_refs (trace st)) (n_href n) i)
        as (H1 & H2 & H3);
        [apply HI | apply HI | apply HI | exact Hidx |].
      constructor.
      * rewrite Hseen, Him. apply HI.
      * now rewrite Hls, Hlm.
      * rewrite Him, Hp. apply HI.
      * now rewrite Hlm, Hl.
      * rewrite Him, Hp. apply HI.
      * now rewrite Hlm, Hl.
Qed.

Lemma step_Inv st n st' : Inv st -> step E C K st n = Ok st' -> Inv st'.
Proof.
  intros HI. unfold step.
  destruct (project C (cx_width K) (cx_vp_w K) n) as [r|e]; cbn [bind];
    [|discriminate].
  destruct (String.eqb (n_tag n) "img" && nonempty (n_src n)).
  - apply image_block_Inv, HI.
  - destruct (startswith (n_bg n) "url(").
    + destruct (image_block E C K st n _ (bg_url E K n)) as [st1|e] eqn:H1;
        cbn [bind]; [|discriminate].
      apply text_block_Inv. eapply image_block_Inv; eauto.
    + cbn [bind]. apply text_block_Inv, HI.
Qed.

Lemma run_loop_Inv nodes : forall st st',
  Inv st -> run_loop E C K st nodes = Ok st' -> Inv st'.
Proof.
  induction nodes as [|n nodes IH]; intros st st' HI; cbn.
  - now intros [= <-].
  - destruct (step E C K st n) as [st1|e] eqn:H1; cbn [bind]; [|discriminate].
    apply IH. eapply step_Inv; eauto.
Qed.

End LoopInvariant.

(** The pass is the loop, once the scale is computed. *)
Lemma composite_run (E : Env) (C : Config) (S : Session) (url final_url : string)
  (nodes : list Node) (st : Loop) :
  composite E C S url final_url nodes = Ok st ->
  run_loop E C (make_ctx S url final_url nodes) (loop_init (width S)) nodes = Ok st.
Proof.
  unfold composite. destruct (scale_x _ _); cbn [bind]; [auto | discriminate].
Qed.

(** C6: in one page render both registries start empty, list no URL
    twice, and hold the URLs in the order in which the compositing pass
    first met them; every index painted in an [[IMG n]] placeholder or a
    [text [n]] suffix is the 1-based position of its URL in the final
    registry, which is also the number on its line of the appended
    listing, so meeting a URL again reuses its index. *)
Theorem registries_first_seen (E : Env) (C : Config) (S : Session)
  (url final_url : string) (nodes : list Node) (st : Loop) :
  composite E C S url final_url nodes = Ok st ->
  (link_map (loop_init (width S)) = [] /\ image_map (loop_init (width S)) = [])
  /\ NoDup (link_map st) /\ NoDup (image_map st)
  /\ image_map st = first_seen (map fst (placeholder_refs (trace st)))
  /\ link_map st = first_seen (map fst (link_refs (trace st)))
  /\ (forall u idx, (u, idx) ∈ placeholder_refs (trace st) ->
        1 <= idx
        /\ image_map st !! Z.to_nat (idx - 1) = Some u
        /\ listing 1 (image_map st) !! Z.to_nat (idx - 1)
           = Some ("[" +:+ pretty idx +:+ "] <" +:+ u +:+ ">"))
  /\ (forall u idx, (u, idx) ∈ link_refs (trace st) ->
        1 <= idx
        /\ link_map st !! Z.to_nat (idx - 1) = Some u
        /\ listing 1 (link_map st) !! Z.to_nat (idx - 1)
           = Some ("[" +:+ pretty idx +:+ "] <" +:+ u +:+ ">")).
Proof.
  intros Hrun. apply composite_run in Hrun.
  pose proof (run_loop_Inv E C _ nodes _ _ (Inv_init (width S)) Hrun) as HI.
  split; [split; reflexivity|].
  split; [apply HI|]. split; [apply HI|].
  split; [apply HI|]. split; [apply HI|].
  split; intros u idx Hin.
  - destruct (refs_ok_elem _ _ u idx (inv_img_refs _ HI) Hin) as [H1 H2].
    split; [exact H1|]. split; [exact H2|].
    rewrite (listing_lookup _ 1 _ u H2). do 4 f_equal. lia.
  - destruct (refs_ok_elem _ _ u idx (inv_link_refs _ HI) Hin) as [H1 H2].
    split; [exact H1|]. split; [exact H2|].
    rewrite (listing_lookup _ 1 _ u H2). do 4 f_equal. lia.
Qed.

(** ** The compositing pass returns on a captured snapshot *)

Section LoopReturns.

Variables (E : Env) (C : Config) (K : Ctx).

Lemma image_block_returns st n x y w h u :
  Inv st -> 0 <= y -> returns (image_block E C K st n (x, y, w, h) u).
Proof.
  intros HI Hy. unfold image_block.
  destruct (register_spec u (img_seen st) (image_map st) (inv_img _ HI))
    as (_ & _ & Hin).
  destruct (register u (img_seen st) (image_map st)) as [seen' reg'].
  cbn [fst snd] in *.
  destruct (list_index_found u reg' Hin) as [i ->]. cbn [bind].
  destruct (draw_text_block_returns E (canvas st) y x w
              ("[IMG " +:+ pretty (i + 1) +:+ "]") false Hy) as [cv ->].
  cbn [bind].
  destruct (cx_auto_image K && _); [|eexists; reflexivity].
  destruct (_ascii_for_returns E C u) as [art ->]. cbn [bind].
  destruct (draw_ascii_image_returns cv (y + 1) x art (Z.min w (ASCII_IMG_W C)))
    as [cv' ->]; [lia|].
  eexists; reflexivity.
Qed.

Lemma text_block_returns st n x y w h :
  Inv st -> 0 <= y -> returns (text_block E K st n (x, y, w, h)).
Proof.
  intros HI Hy. unfold text_block.
  destruct (nonempty (n_txt n) && _should_draw_text_node n);
    [|eexists; reflexivity].
  destruct (is_duplicate _ _ _); [eexists; reflexivity|].
  destruct (is_linked E K n).
  - destruct (register_spec (n_href n) (link_seen st) (link_map st)
                (inv_link _ HI)) as (_ & _ & Hin).
    destruct (register (n_href n) (link_seen st) (link_map st)) as [seen' reg'].
    cbn [fst snd] in *.
    destruct (list_index_found _ reg' Hin) as [i ->]. cbn [bind].
    destruct (draw_text_block_returns E (canvas st) y x w
                (n_txt n +:+ " [" +:+ pretty (i + 1) +:+ "]") (is_bold n) Hy)
      as [cv ->].
    eexists; reflexivity.
  - cbn [bind].
    destruct (draw_text_block_returns E (canvas st) y x w (n_txt n) (is_bold n) Hy)
      as [cv ->].
    eexists; reflexivity.
Qed.

Hypothesis width_range : 0 <= cx_width K < 2 ^ 53.
Hypothesis vp_positive : 0 < cx_vp_w K.
Hypothesis aspect_range : 0 <= Qnum (ROW_ASPECT C) < 2 ^ 53.

Lemma step_returns st n :
  Inv st -> 0 <= n_y n -> in_range n -> returns (step E C K st n).
Proof.
  intros HI Hy (Hx & Hy' & Hw & Hh). unfold step.
  destruct (project_returns C (cx_width K) (cx_vp_w K) n)
    as (x & y & w & h & _ & -> & _ & _ & _ & _ & _ & Hrow); try lia.
  cbn [bind].
  assert (Hrow' : 0 <= y) by (apply Hrow; lia).
  destruct (String.eqb (n_tag n) "img" && nonempty (n_src n)).
  - now apply image_block_returns.
  - destruct (startswith (n_bg n) "url(").
    + destruct (image_block_returns st n x y (Z.max 6 w) (Z.max 1 h)
                  (bg_url E K n) HI Hrow') as [st1 H1].
      rewrite H1. cbn [bind]. apply text_block_returns; [|exact Hrow'].
      eapply image_block_Inv; eauto.
    + cbn [bind]. now apply text_block_returns.
Qed.

Lemma run_loop_returns nodes : forall st,
  Inv st -> Forall (fun n => 0 <= n_y n /\ in_range n) nodes ->
  returns (run_loop E C K st nodes).
Proof.
  induction nodes as [|n nodes IH]; intros st HI Hall; cbn.
  - eexists; reflexivity.
  - apply Forall_cons in Hall as [[Hn Hr] Hall].
    destruct (step_returns st n HI Hn Hr) as [st1 H1]. rewrite H1. cbn [bind].
    apply IH; [|exact Hall]. eapply step_Inv; eauto.
Qed.

End LoopReturns.

(** The pass returns on a snapshot as the capture delivers it:
    non-negative positions, values below [2^53]. *)
Lemma composite_returns (E : Env) (C : Config) (S : Session)
  (url final_url : string) (nodes : list Node) :
  0 <= width S < 2 ^ 53 -> 0 <= Qnum (ROW_ASPECT C) < 2 ^ 53 ->
  Forall (fun n => 0 <= n_y n /\ in_range n) nodes ->
  returns (composite E C S url final_url nodes).
Proof.
  intros Hw Hr Hall. unfold composite.
  pose proof (viewport_width_ge nodes) as Hvp.
  destruct (truediv_returns (width S) (viewport_width nodes) 53) as [Hs _];
    try lia.
  unfold scale_x. rewrite Hs. cbn [bind].
  apply run_loop_returns; cbn; auto using Inv_init. lia.
Qed.

(** ** The conversion budget *)

Section Budget.

Variables (E : Env) (C : Config) (K : Ctx).

Lemma image_block_budget st n r u st' :
  image_block E C K st n r u = Ok st' ->
  conversions (trace st')
  = conversions (trace st) ++ take (budget_left C K st) [(n, u)]
  /\ placeholder_nodes (trace st') = placeholder_nodes (trace st) ++ [(n, u)]
  /\ budget_left C K st' = (budget_left C K st - 1)%nat
  /\ auto_img_count st'
     = auto_img_count st
       + Z.of_nat (length (take (budget_left C K st) [(n, u)])).
Proof.
  intros Hst. destruct r as [[[x y] w] h].
  destruct (image_block_effect E C K _ _ _ _ _ _ _ _ Hst)
    as (i & _ & _ & _ & _ & _ & _ & Hcase).
  unfold budget_left.
  destruct Hcase as [(Hb & Hcount & art & Htr)|(Hb & Hcount & Htr)];
    rewrite Htr, Hcount; unfold conversions, placeholder_nodes;
    rewrite !flat_map_app; cbn [flat_map app].
  - apply andb_true_iff in Hb as [-> Hlt]. apply Z.ltb_lt in Hlt.
    destruct (Z.to_nat (AUTO_IMG_MAX C - auto_img_count st)) as [|k] eqn:Hk;
      [lia|].
    cbn. rewrite take_nil. cbn. repeat split; auto; lia.
  - rewrite !app_nil_r.
    destruct (cx_auto_image K); cbn in Hb.
    + apply Z.ltb_ge in Hb.
      replace (Z.to_nat (AUTO_IMG_MAX C - auto_img_count st)) with 0%nat by lia.
      cbn. rewrite app_nil_r. repeat split; auto; lia.
    + cbn. rewrite app_nil_r. repeat split; auto; lia.
Qed.

Lemma text_block_budget st n r st' :
  text_block E K st n r = Ok st' ->
  conversions (trace st') = conversions (trace st)
  /\ placeholder_nodes (trace st') = placeholder_nodes (trace st)
  /\ budget_left C K st' = budget_left C K st
  /\ auto_img_count st' = auto_img_count st.
Proof.
  intros Hst.
  destruct (text_block_effect E K _ _ _ _ Hst)
    as (_ & _ & Hcount & Hconv & _ & Hcase).
  split; [exact Hconv|]. split; [|split; [|exact Hcount]].
  - destruct Hcase as [[_ ->]|[(_ & _ & -> & _)|(_ & _ & _ & Hk)]];
      [reflexivity | | ].
    + unfold placeholder_nodes. rewrite flat_map_app. cbn. apply app_nil_r.
    + destruct Hk as [(_ & -> & _)|(_ & i & _ & _ & _ & ->)];
        unfold placeholder_nodes; rewrite flat_map_app; cbn; apply app_nil_r.
  - unfold budget_left. now rewrite Hcount.
Qed.

Lemma step_budget st n st' :
  step E C K st n = Ok st' ->
  conversions (trace st')
  = conversions (trace st) ++ take (budget_left C K st) (image_nodes E K [n])
  /\ placeholder_nodes (trace st')
     = placeholder_nodes (trace st) ++ image_nodes E K [n]
  /\ budget_left C K st'
     = (budget_left C K st - length (image_nodes E K [n]))%nat
  /\ auto_img_count st'
     = auto_img_count st
       + Z.of_nat (length (take (budget_left C K st) (image_nodes E K [n]))).
Proof.
  unfold step, image_nodes, image_source. cbn [flat_map].
  destruct (project C (cx_width K) (cx_vp_w K) n) as [r|e]; cbn [bind];
    [|discriminate].
  destruct (String.eqb (n_tag n) "img" && nonempty (n_src n)).
  - rewrite app_nil_r. apply image_block_budget.
  - destruct (startswith (n_bg n) "url(").
    + rewrite app_nil_r.
      destruct (image_block E C K st n _ (bg_url E K n)) as [st1|e] eqn:H1;
        cbn [bind]; [|discriminate].
      intros H2. apply image_block_budget in H1 as (A1 & A2 & A3 & A4).
      apply text_block_budget in H2 as (B1 & B2 & B3 & B4).
      rewrite B1, B2, B3, B4. auto.
    + cbn [bind]. intros H2.
      apply text_block_budget in H2 as (B1 & B2 & B3 & B4).
      rewrite B1, B2, B3, B4. cbn [app]. rewrite take_nil, !app_nil_r. cbn.
      repeat split; lia.
Qed.

Lemma image_nodes_cons n nodes :
  image_nodes E K (n :: nodes) = image_nodes E K [n] ++ image_nodes E K nodes.
Proof. unfold image_nodes. cbn [flat_map]. now rewrite app_nil_r. Qed.

Lemma run_loop_budget nodes : forall st st',
  run_loop E C K st nodes = Ok st' ->
  conversions (trace st')
  = conversions (trace st) ++ take (budget_left C K st) (image_nodes E K nodes)
  /\ placeholder_nodes (trace st')
     = placeholder_nodes (trace st) ++ image_nodes E K nodes
  /\ auto_img_count st'
     = auto_img_count st
       + Z.of_nat (length (take (budget_left C K st) (image_nodes E K nodes))).
Proof.
  induction nodes as [|n nodes IH]; intros st st'; cbn [run_loop].
  - intros [= <-]. cbn. rewrite take_nil, !app_nil_r. cbn. repeat split; lia.
  - destruct (step E C K st n) as [st1|e] eqn:H1; cbn [bind]; [|discriminate].
    intros H2. apply step_budget in H1 as (A1 & A2 & A3 & A4).
    apply IH in H2 as (B1 & B2 & B4).
    rewrite image_nodes_cons, take_app, length_app, Nat2Z.inj_add.
    rewrite B1, B2, B4, A1, A2, A3, A4, <- !app_assoc.
    repeat split; lia.
Qed.

End Budget.

(** C10: in one page render [_ascii_for] is called for the first
    [AUTO_IMG_MAX] image nodes in paint order and for no other (for none
    when automatic images are off), whatever the calls return: the counter
    is the number of calls made, a failed fetch or decode included, and
    every image node, converted or not, gets its [[IMG n]] placeholder. *)
Theorem conversion_budget (E : Env) (C : Config) (S : Session)
  (url final_url : string) (nodes : list Node) (st : Loop) :
  composite E C S url final_url nodes = Ok st ->
  let K := make_ctx S url final_url nodes in
  let budget := if auto_image S then Z.to_nat (AUTO_IMG_MAX C) else 0%nat in
  conversions (trace st) = take budget (image_nodes E K nodes)
  /\ placeholder_nodes (trace st) = image_nodes E K nodes
  /\ auto_img_count st = Z.of_nat (length (conversions (trace st)))
  /\ Z.of_nat (length (conversions (trace st))) <= Z.max 0 (AUTO_IMG_MAX C).
Proof.
  intros Hrun K budget. apply composite_run in Hrun. fold K in Hrun.
  apply run_loop_budget in Hrun as (H1 & H2 & H3).
  assert (Hb : budget_left C K (loop_init (width S)) = budget).
  { unfold budget_left, budget, K. cbn. now rewrite Z.sub_0_r. }
  rewrite Hb in H1, H3. cbn in H1, H2, H3.
  split; [exact H1|]. split; [exact H2|]. split; [now rewrite H3, H1|].
  rewrite H1, length_take. unfold budget. destruct (auto_image S); lia.
Qed.

(** Five image nodes whose fetches all fail: the first three are
    converted, the last two are not. *)
Lemma conversion_budget_witness :
  let st := Double.composited 80 Double.page_gallery in
  map snd (conversions (trace st))
  = ["http://a/a.png"; "http://a/a.png"; "http://a/b.png"]%string
  /\ map snd (placeholder_nodes (trace st))
     = ["http://a/a.png"; "http://a/a.png"; "http://a/b.png";
        "http://a/c.png"; "http://a/d.png"]%string
  /\ auto_img_count st = 3.
Proof.
  intros st.
  destruct (conversion_budget (Double.serving Double.page_gallery) default_config
              (Double.session 80) Double.home Double.home Double.page_gallery st)
    as (H1 & H2 & H3 & _).
  - vm_compute. reflexivity.
  - cbv zeta in H1, H2, H3. rewrite H3, H1, H2. vm_compute. repeat split; reflexivity.
Defined.

(** A URL met again keeps its index. *)
Lemma registries_first_seen_witness :
  let st := Double.composited 80 Double.page_gallery in
  image_map st
  = ["http://a/a.png"; "http://a/b.png"; "http://a/c.png"; "http://a/d.png"]%string
  /\ NoDup (image_map st)
  /\ listing 1 (image_map st) !! 0%nat = Some "[1] <http://a/a.png>"%string
  /\ listing 1 (link_map st) !! 0%nat = Some "[1] <http://a/more>"%string.
Proof.
  intros st.
  destruct (registries_first_seen (Double.serving Double.page_gallery) default_config
              (Double.session 80) Double.home Double.home Double.page_gallery st)
    as (_ & _ & Hnd & Hord & _ & Himg & Hlnk).
  - vm_compute. reflexivity.
  - split; [rewrite Hord; vm_compute; reflexivity|]. split; [exact Hnd|]. split.
    + destruct (Himg "http://a/a.png"%string 1) as (_ & _ & H);
        [vm_compute; repeat constructor | exact H].
    + destruct (Hlnk "http://a/more"%string 1) as (_ & _ & H);
        [vm_compute; repeat constructor | exact H].
Defined.

(** ** Image branch and text branch *)

Section Branches.

Variables (E : Env) (C : Config) (K : Ctx).

Lemma image_block_no_text st n r u st' :
  image_block E C K st n r u = Ok st' ->
  text_nodes (trace st') = text_nodes (trace st)
  /\ placed_text_rects st' = placed_text_rects st
  /\ link_map st' = link_map st.
Proof.
  intros Hst. destruct r as [[[x y] w] h].
  destruct (image_block_effect E C K _ _ _ _ _ _ _ _ Hst)
    as (i & _ & _ & _ & Hlm & _ & Hpl & Hcase).
  split; [|split; assumption].
  destruct Hcase as [(_ & _ & art & ->)|(_ & _ & ->)];
    unfold text_nodes; rewrite flat_map_app; cbn; apply app_nil_r.
Qed.



End Branches.

(** C7 (as amended): an [img] node with a source is handled by the image
    branch alone: its text is neither painted nor tested for duplication,
    and no link is registered for it.  A node that is not such an [img]
    and carries a CSS background image goes through the image branch and
    then, like every other node, through the text branch.  A node without
    an image source goes through the text branch alone. *)
Theorem image_and_text_branches (E : Env) (C : Config) (K : Ctx)
  (st st' : Loop) (n : Node) :
  step E C K st n = Ok st' ->
  exists r : Rect,
    project C (cx_width K) (cx_vp_w K) n = Ok r
    /\ (String.eqb (n_tag n) "img" && nonempty (n_src n) = true ->
        image_block E C K st n r (n_src n) = Ok st'
        /\ text_nodes (trace st') = text_nodes (trace st)
        /\ placed_text_rects st' = placed_text_rects st
        /\ link_map st' = link_map st)
    /\ (String.eqb (n_tag n) "img" && nonempty (n_src n) = false ->
        startswith (n_bg n) "url(" = true ->
        exists st1,
          image_block E C K st n r (bg_url E K n) = Ok st1
          /\ text_block E K st1 n r = Ok st')
    /\ (image_source E K n = None ->
        text_block E K st n r = Ok st'
        /\ placeholder_nodes (trace st') = placeholder_nodes (trace st)
        /\ conversions (trace st') = conversions (trace st)
        /\ image_map st' = image_map st).
Proof.
  intros Hstep. unfold step in Hstep.
  destruct (project C (cx_width K) (cx_vp_w K) n) as [r|e]; cbn [bind] in Hstep;
    [|discriminate].
  exists r. split; [reflexivity|].
  unfold image_source.
  destruct (String.eqb (n_tag n) "img" && nonempty (n_src n)).
  - split; [|split; discriminate]. intros _.
    split; [exact Hstep|]. eapply image_block_no_text; eauto.
  - split; [discriminate|].
    destruct (startswith (n_bg n) "url(").
    + split; [|discriminate]. intros _ _.
      destruct (image_block E C K st n r (bg_url E K n)) as [st1|e];
        cbn [bind] in Hstep; [|discriminate].
      now exists st1.
    + split; [discriminate|]. intros _. cbn [bind] in Hstep.
      split; [exact Hstep|].
      destruct (text_block_budget E C K _ _ _ _ Hstep) as (H1 & H2 & _ & _).
      destruct (text_block_effect E K _ _ _ _ Hstep) as (H3 & _).
      auto.
Qed.

(** An [img] node and a plain paragraph, each on its own branch. *)
Lemma image_and_text_branches_witness :
  let n := Double.img_node 0 0 300 100 "http://a/a.png" in
  let K := make_ctx (Double.session 80) Double.home Double.home [n] in
  exists st',
    step (Double.env [] []) default_config K (loop_init 80) n = Ok st'
    /\ text_nodes (trace st') = []
    /\ placed_text_rects st' = [].
Proof.
  intros n K.
  destruct (step (Double.env [] []) default_config K (loop_init 80) n)
    as [st'|e] eqn:Hstep; [|vm_compute in Hstep; discriminate].
  exists st'. split; [reflexivity|].
  destruct (image_and_text_branches _ _ _ _ _ _ Hstep) as (r & _ & Himg & _ & _).
  destruct Himg as (_ & H1 & H2 & _); [reflexivity|].
  split; [exact H1 | exact H2].
Defined.

(** C7, as stated, fails for a block with a background image: the loop
    body paints its placeholder, converts the image, and then paints the
    block's own text and records it for deduplication. *)
Lemma background_block_text_is_painted :
  exists n art,
    Double.page_hero = [n]
    /\ startswith (n_bg n) "url(" = true
    /\ composite (Double.serving Double.page_hero) default_config
         (Double.session 80) Double.home Double.home Double.page_hero
       = Ok (Double.composited 80 Double.page_hero)
    /\ trace (Double.composited 80 Double.page_hero)
       = [DrewPlaceholder n "http://a/hero.png" 1;
          Converted n "http://a/hero.png" art;
          DrewText n "Welcome to the winter collection sale" false None]
    /\ placed_text_rects (Double.composited 80 Double.page_hero)
       = [((0, 0, 40, 6), "Welcome to the winter co"%string)].
Proof.
  do 2 eexists. split; [reflexivity|].
  split; [vm_compute; reflexivity|].
  split; [vm_compute; reflexivity|].
  split; vm_compute; reflexivity.
Qed.




(** ** Bold lines *)

Section Bold.

Lemma length_chars (s : string) : length (chars s) = String.length s.
Proof. induction s as [|c s IH]; [reflexivity | cbn; f_equal; exact IH]. Qed.

Lemma chars_painted_line (w : Z) (bold : bool) (line : string) :
  0 <= w ->
  chars (painted_line w bold line)
  = take (Z.to_nat w)
      (chars (if bold then "**" +:+ line +:+ "**" else line)).
Proof.
  intros Hw. unfold painted_line, upto.
  destruct (Z.ltb_spec w 0); [lia|]. apply str_chars.
Qed.

(** A painted line never exceeds the column width, markers included. *)
Lemma painted_line_width (w : Z) (bold : bool) (line : string) :
  0 <= w -> len (painted_line w bold line) <= w.
Proof.
  intros Hw. unfold len. rewrite <- length_chars, chars_painted_line by exact Hw.
  rewrite length_take. lia.
Qed.

(** So a bold line longer than the width less four loses its tail. *)
Lemma bold_line_cut (w : Z) (line : string) :
  0 <= w < len line + 4 ->
  painted_line w true line <> "**" +:+ line +:+ "**".
Proof.
  intros [Hw Hlt] Heq. pose proof (painted_line_width w true line Hw) as Hle.
  rewrite Heq in Hle. unfold len in *.
  rewrite <- !length_chars, !chars_append, !length_app in Hle.
  rewrite <- length_chars in Hlt. cbn in Hle. lia.
Qed.

End Bold.

(** C9 fails on the code: for the bold heading [Breaking News] in a box
    thirteen columns wide, the one wrapped line is bracketed and then cut
    to the width, so what is painted is [**Breaking Ne], without the
    closing marker and without the end of the text. *)
Theorem bold_line_loses_closing_marker :
  let n := Double.node "h1" 0 0 200 40 "Breaking News" in
  let E := Double.serving Double.page_heading in
  is_bold n = true
  /\ project default_config 80 (viewport_width Double.page_heading) n
     = Ok (0, 0, 13, 1)
  /\ Binary64.project_x 80 1200 200 = Some 13
  /\ wrapped_lines E 13 "Breaking News" = ["Breaking News"]%string
  /\ painted_line 13 true "Breaking News" = "**Breaking Ne"%string
  /\ endswith (painted_line 13 true "Breaking News") "**" = false
  /\ exists S',
      load_url E default_config (Double.session 80) Double.home
      = Ok ("**Breaking Ne" +:+ nl +:+ "# http://a/", S').
Proof.
  vm_compute. repeat split; try reflexivity. eexists. reflexivity.
Qed.

(** ** The fallback renderer *)

Section Fallback.

Variables (E : Env) (C : Config).

Lemma fallback_ascii_returns imgs : forall i text,
  returns (fallback_ascii E C i imgs text).
Proof.
  induction imgs as [|src rest IH]; intros i text; cbn.
  - eexists; reflexivity.
  - destruct (_ascii_for_returns E C src) as [art ->]. cbn [bind]. apply IH.
Qed.

(** The HTTP fetch is the one statement of the fallback that can
    raise, and nothing catches it. *)
Lemma fallback_raises_iff (S : Session) (url : string) :
  (forall e, requests_get E url = Raise e ->
             _render_fallback_url E C S url = Raise e)
  /\ (returns (requests_get E url) -> returns (_render_fallback_url E C S url)).
Proof.
  unfold _render_fallback_url. split.
  - intros e ->. reflexivity.
  - intros [r ->]. cbn [bind].
    match goal with
    | |- context [if ?c then fallback_ascii E C 1 ?l ?t else Ok ?t'] =>
        destruct c; [destruct (fallback_ascii_returns l 1 t) as [s ->]|]
    end; cbn [bind]; eexists; reflexivity.
Qed.

(** [load_url] hands over to the fallback when the snapshot fails or is
    empty, and a failure of the fallback's fetch leaves [load_url]. *)
Lemma load_url_fallback_raises (S : Session) (url : string) (e : exn) :
  (js_mode S && HAVE_PW E = false
   \/ (exists e', snapshot_dom E url (user_agent S) = Raise e')
   \/ (exists final_url, snapshot_dom E url (user_agent S) = Ok ([], final_url))) ->
  requests_get E url = Raise e ->
  load_url E C S url = Raise e.
Proof.
  intros Hpath Hget. unfold load_url.
  assert (Hua : user_agent (push_history S) = user_agent S).
  { unfold push_history. destruct (current_url S) as [u|]; [|reflexivity].
    destruct (nonempty u); reflexivity. }
  assert (Hjs : js_mode (push_history S) = js_mode S).
  { unfold push_history. destruct (current_url S) as [u|]; [|reflexivity].
    destruct (nonempty u); reflexivity. }
  rewrite Hua, Hjs.
  destruct Hpath as [->|[[e' ->]|[f ->]]].
  - now apply fallback_raises_iff.
  - destruct (js_mode S && HAVE_PW E); now apply fallback_raises_iff.
  - destruct (js_mode S && HAVE_PW E); now apply fallback_raises_iff.
Qed.

End Fallback.

(** C1 fails on the code: when the snapshot cannot be taken and the host
    does not answer the fallback's own HTTP request either, the exception
    of that request leaves [load_url]; no text is returned. *)
Theorem load_url_raises_when_fallback_fetch_fails :
  let E := Double.env [] [] in
  (exists e, snapshot_dom E Double.home "Mozilla/5.0" = Raise e)
  /\ requests_get E Double.home = Raise "ConnectionError"
  /\ load_url E default_config (Double.session 80) Double.home
     = Raise "ConnectionError".
Proof.
  cbv zeta. split; [eexists; vm_compute; reflexivity|].
  split; [reflexivity|].
  apply load_url_fallback_raises; [|reflexivity].
  right. left. eexists. vm_compute. reflexivity.
Qed.

(** ** Rounded and exact arithmetic *)

(** On every luminance the ramp index, computed in binary64, is the floor
    of the exact value. *)
Lemma ramp_index_exact (p : Z) :
  0 <= p <= 255 -> ramp_index p = Ok (p * 9 / 255).
Proof.
  intros Hp.
  assert (Hall : forallb (fun k => match ramp_index (Z.of_nat k) with
                                   | Ok i => i =? Z.of_nat k * 9 / 255
                                   | Raise _ => false
                                   end) (seq 0 256) = true) by (vm_compute; reflexivity).
  rewrite forallb_forall in Hall.
  specialize (Hall (Z.to_nat p)). rewrite Z2Nat.id in Hall by lia.
  destruct (ramp_index p) as [i|].
  - f_equal. apply Z.eqb_eq, Hall, in_seq. lia.
  - discriminate Hall. apply in_seq. lia.
Qed.

(** Where an exact product is an integer, the rounded product can lie
    just below it: at width 110 the exact column of [x = 1200] is 110, and
    the double [1200 * (110 / 1200)] truncates to 109. *)
Remark binary64_product_below_integer :
  Py.int (1200 * (110 / 1200))%Q = 110
  /\ scaled 1200 (Binary64.quotient 110 1200) = Ok 109
  /\ Binary64.quotient 110 1200 = Binary64.div (Binary64.of_int 110) (Binary64.of_int 1200)
  /\ Binary64.project_x 110 1200 1200 = Some 109.
Proof. vm_compute. repeat split; reflexivity. Qed.

(** ** The layout path of [load_url] *)

(** On a snapshot that is not empty, [load_url] is the compositing pass
    from fresh accumulators followed by the assembly of the page text;
    the session's link and image lists are the two registries. *)
Lemma load_url_layout (E : Env) (C : Config) (S : Session) (url final_url : string)
  (n : Node) (nodes : list Node) (st : Loop) :
  js_mode S = true -> HAVE_PW E = true ->
  snapshot_dom E url (user_agent S) = Ok (n :: nodes, final_url) ->
  composite E C (push_history S) url final_url (n :: nodes) = Ok st ->
  exists S',
    load_url E C S url = Ok (page_text final_url st, S')
    /\ links S' = link_map st /\ images S' = image_map st
    /\ current_url S' = Some final_url.
Proof.
  intros Hjs Hpw Hsnap Hrun. unfold load_url.
  assert (Hua : user_agent (push_history S) = user_agent S).
  { unfold push_history. destruct (current_url S) as [u|]; [|reflexivity].
    destruct (nonempty u); reflexivity. }
  assert (Hjs' : js_mode (push_history S) = js_mode S).
  { unfold push_history. destruct (current_url S) as [u|]; [|reflexivity].
    destruct (nonempty u); reflexivity. }
  rewrite Hua, Hjs', Hjs, Hpw, Hsnap. cbn [andb]. rewrite Hrun. cbn [bind].
  eexists. split; [reflexivity|]. cbn. auto.
Qed.

(** * Properties of the code around the claims *)

(** ** [splitlines] and [compress_blank] *)

Section BlankLines.

Lemma one_line_str (l : list ascii) :
  Forall (fun c => is_break c = false) l -> one_line (str l).
Proof. unfold one_line. now rewrite str_chars. Qed.

Lemma splitlines_aux_one_line_each (n : nat) : forall l cur,
  (length l <= n)%nat ->
  Forall (fun c => is_break c = false) cur ->
  Forall one_line (splitlines_aux l cur).
Proof.
  induction n as [|n IH]; intros l cur Hlen Hcur.
  - destruct l; [|cbn in Hlen; lia]. cbn.
    destruct cur; [constructor|]. constructor; [|constructor].
    apply one_line_str. now apply Forall_rev.
  - assert (Hline : one_line (str (rev cur)))
      by (apply one_line_str; now apply Forall_rev).
    destruct l as [|c l].
    { cbn. destruct cur; [constructor|]. now repeat constructor. }
    cbn [splitlines_aux]. cbn in Hlen.
    destruct (is_cr c) eqn:Hcr.
    + destruct l as [|d l']; [now repeat constructor|].
      cbn in Hlen.
      destruct (is_lf d); constructor; try exact Hline;
        apply IH; cbn; try lia; constructor.
    + destruct (is_linebreak c) eqn:Hlb.
      * constructor; [exact Hline|]. apply IH; [lia | constructor].
      * apply IH; [lia|]. constructor; [|exact Hcur].
        unfold is_break. now rewrite Hcr, Hlb.
Qed.

Lemma splitlines_one_line_each (s : string) : Forall one_line (splitlines s).
Proof.
  unfold splitlines. eapply splitlines_aux_one_line_each; [reflexivity | constructor].
Qed.

Lemma Forall_of_sublist {A} (P : A -> Prop) (l k : list A) :
  sublist l k -> Forall P k -> Forall P l.
Proof.
  induction 1 as [|x l k _ IH|x l k _ IH]; intros Hk.
  - constructor.
  - apply Forall_cons in Hk as [Hx Hk]. constructor; auto.
  - apply Forall_cons in Hk as [_ Hk]. auto.
Qed.

Lemma compress_blank_aux_spec (ls : list string) : forall prev,
  let out := compress_blank_aux ls prev in
  no_blank_run out = true
  /\ (prev = true -> match out with
                     | l :: _ => blank_line l = false
                     | [] => True
                     end)
  /\ filter (fun l => blank_line l = false) out
     = filter (fun l => blank_line l = false) ls
  /\ sublist out ls.
Proof.
  induction ls as [|l ls IH]; intros prev; cbv zeta; cbn [compress_blank_aux].
  - repeat split; auto.
  - fold (blank_line l).
    destruct (blank_line l) eqn:Hb; destruct prev; cbn [andb].
    + destruct (IH true) as (H1 & H2 & H3 & H4).
      split; [exact H1|]. split; [exact H2|].
      split; [|now apply sublist_cons].
      rewrite filter_cons_False by (rewrite Hb; discriminate). exact H3.
    + destruct (IH true) as (H1 & H2 & H3 & H4).
      split; [|split; [discriminate|split; [|now apply sublist_skip]]].
      * cbn [no_blank_run].
        destruct (compress_blank_aux ls true) as [|b rest] eqn:Hout; [reflexivity|].
        rewrite (H2 eq_refl), andb_false_r. exact H1.
      * rewrite !filter_cons_False by (rewrite Hb; discriminate). exact H3.
    + destruct (IH false) as (H1 & H2 & H3 & H4).
      split; [|split; [intros _; exact Hb|split; [|now apply sublist_skip]]].
      * cbn [no_blank_run].
        destruct (compress_blank_aux ls false) as [|b rest] eqn:Hout; [reflexivity|].
        rewrite Hb. exact H1.
      * rewrite !filter_cons_True by exact Hb. now rewrite H3.
    + destruct (IH false) as (H1 & H2 & H3 & H4).
      split; [|split; [discriminate|split; [|now apply sublist_skip]]].
      * cbn [no_blank_run].
        destruct (compress_blank_aux ls false) as [|b rest] eqn:Hout; [reflexivity|].
        rewrite Hb. exact H1.
      * rewrite !filter_cons_True by exact Hb. now rewrite H3.
Qed.

End BlankLines.

(** X1: [compress_blank] keeps the lines of its input in order, drops
    only blank lines, keeps every line that is not blank, and leaves no
    blank line directly after a blank line; each line it joins is free of
    line boundaries. *)
Theorem compress_blank_collapses_runs (s : string) :
  exists out : list string,
    compress_blank s = join nl out
    /\ no_blank_run out = true
    /\ sublist out (splitlines s)
    /\ filter (fun l => blank_line l = false) out
       = filter (fun l => blank_line l = false) (splitlines s)
    /\ Forall one_line out.
Proof.
  exists (compress_blank_aux (splitlines s) false).
  destruct (compress_blank_aux_spec (splitlines s) false) as (H1 & _ & H3 & H4).
  split; [reflexivity|]. split; [exact H1|]. split; [exact H4|].
  split; [exact H3|].
  eapply Forall_of_sublist; [exact H4 | apply splitlines_one_line_each].
Qed.

(** ** The paint order of [snapshot_dom] *)

Section PaintOrder.

Lemma key_lt_false_iff (n m : Node) : key_lt m n = false <-> key_le n m.
Proof.
  unfold key_lt, key_le.
  destruct (Z.ltb_spec (n_z m) (n_z n)); [split; [discriminate | lia]|].
  destruct (Z.ltb_spec (n_z n) (n_z m)); [split; [lia | reflexivity]|].
  destruct (Z.ltb_spec (n_y m) (n_y n)); [split; [discriminate | lia]|].
  destruct (Z.ltb_spec (n_y n) (n_y m)); [split; [lia | reflexivity]|].
  destruct (Z.ltb_spec (n_x m) (n_x n)); [split; [discriminate | lia]|].
  destruct (Z.ltb_spec (n_x n) (n_x m)); [split; [lia | reflexivity]|].
  destruct (Z.ltb_spec (n_h m * n_w m) (n_h n * n_w n)); [split; [discriminate | lia]|].
  destruct (Z.ltb_spec (n_h n * n_w n) (n_h m * n_w m)); split; auto; lia.
Qed.

Lemma key_le_trans (a b c : Node) : key_le a b -> key_le b c -> key_le a c.
Proof. unfold key_le. lia. Qed.

Lemma key_le_total (a b : Node) : key_le a b \/ key_le b a.
Proof. unfold key_le. lia. Qed.

Lemma insert_node_perm (n : Node) (l : list Node) : insert_node n l ≡ₚ n :: l.
Proof.
  induction l as [|m l IH]; cbn [insert_node]; [reflexivity|].
  destruct (key_lt n m); [reflexivity|].
  rewrite IH. apply Permutation_swap.
Qed.

Lemma insert_node_sorted (n : Node) (l : list Node) :
  StronglySorted key_le l -> StronglySorted key_le (insert_node n l).
Proof.
  induction 1 as [|m l Hs IH Hall]; cbn [insert_node]; [repeat constructor|].
  destruct (key_lt n m) eqn:Hlt.
  - assert (Hnm : key_le n m).
    { destruct (key_le_total n m) as [H|H]; [exact H|].
      apply key_lt_false_iff in H. congruence. }
    constructor; [now constructor|]. constructor; [exact Hnm|].
    eapply Forall_impl; [exact Hall|]. intros k Hk. eapply key_le_trans; eauto.
  - constructor; [exact IH|].
    rewrite insert_node_perm. constructor; [|exact Hall].
    now apply key_lt_false_iff.
Qed.

Lemma insert_node_last (n : Node) (l : list Node) :
  Forall (fun a => key_le a n) l -> insert_node n l = l ++ [n].
Proof.
  induction 1 as [|m l Hm _ IH]; cbn [insert_node app]; [reflexivity|].
  apply key_lt_false_iff in Hm. now rewrite Hm, IH.
Qed.

Lemma fold_insert_perm (l : list Node) : forall acc,
  fold_left (fun acc n => insert_node n acc) l acc ≡ₚ acc ++ l.
Proof.
  induction l as [|n l IH]; intros acc; cbn [fold_left]; [now rewrite app_nil_r|].
  rewrite IH, insert_node_perm. cbn [app]. apply Permutation_middle.
Qed.

Lemma fold_insert_sorted (l : list Node) : forall acc,
  StronglySorted key_le acc ->
  StronglySorted key_le (fold_left (fun acc n => insert_node n acc) l acc).
Proof.
  induction l as [|n l IH]; intros acc Hacc; cbn [fold_left]; [exact Hacc|].
  apply IH. now apply insert_node_sorted.
Qed.

Lemma sorted_before (acc : list Node) (n : Node) (l : list Node) :
  StronglySorted key_le (acc ++ n :: l) -> Forall (fun a => key_le a n) acc.
Proof.
  induction acc as [|a acc IH]; cbn; intros H; [constructor|].
  apply StronglySorted_inv in H as [Hs Hall]. constructor; [|now apply IH].
  rewrite Forall_app, Forall_cons in Hall. tauto.
Qed.

Lemma fold_insert_fixed (l : list Node) : forall acc,
  StronglySorted key_le (acc ++ l) ->
  fold_left (fun acc n => insert_node n acc) l acc = acc ++ l.
Proof.
  induction l as [|n l IH]; intros acc H; cbn [fold_left]; [now rewrite app_nil_r|].
  rewrite (insert_node_last n acc) by (eapply sorted_before; eauto).
  rewrite IH; rewrite <- app_assoc; [reflexivity | exact H].
Qed.

End PaintOrder.

(** X2: a snapshot that [snapshot_dom] returns holds exactly the captured
    nodes of all chunks, in ascending order of [(z, y, x, h*w)]; nodes
    that were already in that order keep their places, equal keys
    included. *)
Theorem snapshot_dom_paint_order (E : Env) (url ua final_url : string)
  (nodes : list Node) :
  snapshot_dom E url ua = Ok (nodes, final_url) ->
  HAVE_PW E = true
  /\ StronglySorted key_le nodes
  /\ exists chunks_,
      playwright_capture E url ua = Ok (chunks_, final_url)
      /\ nodes ≡ₚ concat chunks_
      /\ (StronglySorted key_le (concat chunks_) -> nodes = concat chunks_).
Proof.
  unfold snapshot_dom. destruct (HAVE_PW E); cbn [negb]; [|discriminate].
  destruct (playwright_capture E url ua) as [[chunks_ f]|e]; cbn [bind];
    [|discriminate].
  intros [= <- <-]. split; [reflexivity|]. unfold sort_nodes.
  split; [apply fold_insert_sorted; constructor|].
  exists chunks_. split; [reflexivity|].
  split; [apply (fold_insert_perm _ [])|].
  intros Hs. now apply (fold_insert_fixed _ []).
Qed.

Lemma snapshot_dom_paint_order_witness :
  StronglySorted key_le Double.page_gallery.
Proof.
  destruct (snapshot_dom_paint_order (Double.serving Double.page_gallery)
              Double.home "Mozilla/5.0" Double.home Double.page_gallery)
    as (_ & H & _); [vm_compute; reflexivity | exact H].
Defined.

(** ** The canvas keeps its shape *)

Section CanvasShape.

Lemma ensure_rows_ok cv rows : canvas_ok cv -> canvas_ok (_ensure_rows cv rows).
Proof.
  unfold canvas_ok, _ensure_rows; cbn. intros H. apply Forall_app. split; [exact H|].
  apply Forall_replicate. apply length_replicate.
Qed.

Lemma ensure_rows_len cv rows :
  Z.of_nat (length (canvas_lines (_ensure_rows cv rows)))
  = Z.max (Z.of_nat (length (canvas_lines cv))) rows.
Proof. unfold _ensure_rows; cbn. rewrite length_app, length_replicate. lia. Qed.

Lemma set_cell_ok cv r c ch cv' :
  canvas_ok cv -> set_cell cv r c ch = Ok cv' ->
  canvas_ok cv' /\ canvas_W cv' = canvas_W cv
  /\ length (canvas_lines cv') = length (canvas_lines cv).
Proof.
  unfold set_cell, canvas_ok. intros H.
  destruct (Py.index (canvas_lines cv) r) as [i|e]; cbn [bind]; [|discriminate].
  intros [= <-]. cbn. split; [|split; [reflexivity | apply length_alter]].
  apply Forall_alter; [exact H|]. intros row _ Hrow. now rewrite length_insert.
Qed.

Lemma write_chars_ok s : forall cv r c cv',
  canvas_ok cv -> write_chars cv r c s = Ok cv' ->
  canvas_ok cv' /\ canvas_W cv' = canvas_W cv
  /\ length (canvas_lines cv') = length (canvas_lines cv).
Proof.
  induction s as [|ch s IH]; intros cv r c cv' Hok; cbn [write_chars].
  - intros [= <-]. auto.
  - destruct ((0 <=? c) && (c <? canvas_W cv)).
    + destruct (set_cell cv r c ch) as [cv1|e] eqn:H1; cbn [bind]; [|discriminate].
      destruct (set_cell_ok _ _ _ _ _ Hok H1) as (Hok1 & HW1 & HL1).
      intros H2. destruct (IH _ _ _ _ Hok1 H2) as (Hok2 & HW2 & HL2).
      repeat split; [exact Hok2 | congruence | congruence].
    + cbn [bind]. apply IH, Hok.
Qed.

Lemma draw_rows_ok rows : forall cv r left_col cv',
  canvas_ok cv -> draw_rows cv r left_col rows = Ok cv' ->
  canvas_ok cv' /\ canvas_W cv' = canvas_W cv
  /\ Z.of_nat (length (canvas_lines cv'))
     = match rows with
       | [] => Z.of_nat (length (canvas_lines cv))
       | _ => Z.max (Z.of_nat (length (canvas_lines cv)))
                (r + Z.of_nat (length rows))
       end.
Proof.
  induction rows as [|s rows IH]; intros cv r left_col cv' Hok; cbn [draw_rows].
  - intros [= <-]. auto.
  - destruct (write_chars (_ensure_rows cv (r + 1)) r left_col (chars s))
      as [cv1|e] eqn:H1; cbn [bind]; [|discriminate].
    destruct (write_chars_ok _ _ _ _ _ (ensure_rows_ok cv (r + 1) Hok) H1)
      as (Hok1 & HW1 & HL1).
    intros H2. destruct (IH _ _ _ _ Hok1 H2) as (Hok2 & HW2 & HL2).
    split; [exact Hok2|]. split; [now rewrite HW2, HW1|].
    rewrite HL2, HL1. pose proof (ensure_rows_len cv (r + 1)) as Hlen.
    destruct rows; cbn [length] in *; lia.
Qed.

End CanvasShape.

(** X3: the two drawing operations keep the canvas a grid of fixed width:
    the width does not change, every row still has [W] cells, and no row
    is removed; unless there is nothing to draw, the canvas afterwards
    has as many rows as before or as the last drawn line needs, whichever
    is more. *)
Theorem drawing_keeps_canvas_shape (E : Env) (cv cv' : TermCanvas)
  (top_row left_col : Z) :
  canvas_ok cv ->
  (forall width_cols text bold,
     draw_text_block E cv top_row left_col width_cols text bold = Ok cv' ->
     canvas_ok cv' /\ canvas_W cv' = canvas_W cv
     /\ Z.of_nat (length (canvas_lines cv'))
        = if (width_cols <=? 5) || negb (nonempty text)
             || bool_decide (wrapped_lines E width_cols text = [])
          then Z.of_nat (length (canvas_lines cv))
          else Z.max (Z.of_nat (length (canvas_lines cv)))
                 (top_row + Z.of_nat (length (wrapped_lines E width_cols text))))
  /\ (forall ascii_art max_w,
        draw_ascii_image cv top_row left_col ascii_art max_w = Ok cv' ->
        canvas_ok cv' /\ canvas_W cv' = canvas_W cv
        /\ Z.of_nat (length (canvas_lines cv'))
           = if negb (nonempty ascii_art) || bool_decide (splitlines ascii_art = [])
             then Z.of_nat (length (canvas_lines cv))
             else Z.max (Z.of_nat (length (canvas_lines cv)))
                    (top_row + Z.of_nat (length (splitlines ascii_art)))).
Proof.
  intros Hok. split.
  - intros width_cols text bold. unfold draw_text_block.
    destruct ((width_cols <=? 5) || negb (nonempty text)); cbn [orb].
    + intros [= <-]. auto.
    + intros H. destruct (draw_rows_ok _ _ _ _ _ Hok H) as (H1 & H2 & H3).
      split; [exact H1|]. split; [exact H2|]. rewrite H3, length_map.
      destruct (wrapped_lines E width_cols text); reflexivity.
  - intros ascii_art max_w. unfold draw_ascii_image.
    destruct (negb (nonempty ascii_art)); cbn [orb].
    + intros [= <-]. auto.
    + intros H. destruct (draw_rows_ok _ _ _ _ _ Hok H) as (H1 & H2 & H3).
      split; [exact H1|]. split; [exact H2|]. rewrite H3, length_map.
      destruct (splitlines ascii_art); reflexivity.
Qed.

(** A three-line text drawn from row 2 of an empty canvas. *)
Lemma drawing_keeps_canvas_shape_witness :
  exists cv',
    draw_text_block (Double.env [] []) (TermCanvas_init 20) 2 0 10
      "Hello brave world" false = Ok cv'
    /\ canvas_ok cv' /\ canvas_W cv' = 20
    /\ Z.of_nat (length (canvas_lines cv')) = 5.
Proof.
  destruct (draw_text_block (Double.env [] []) (TermCanvas_init 20) 2 0 10
              "Hello brave world" false) as [cv'|e] eqn:H;
    [|vm_compute in H; discriminate].
  exists cv'. split; [reflexivity|].
  destruct (drawing_keeps_canvas_shape (Double.env [] []) (TermCanvas_init 20)
              cv' 2 0) as [Htext _]; [constructor|].
  destruct (Htext 10 "Hello brave world"%string false H) as (H1 & H2 & H3).
  split; [exact H1|]. split; [exact H2|]. rewrite H3. vm_compute. reflexivity.
Defined.
(** ** What drawing writes *)

Section CanvasCells.

Lemma blank_row_cell (n k : nat) : default space (replicate n space !! k) = space.
Proof.
  destruct (replicate n space !! k) as [y|] eqn:H; [|reflexivity].
  apply lookup_replicate in H as [-> _]. reflexivity.
Qed.

Lemma ensure_rows_cells cv rows r k :
  cell_at (_ensure_rows cv rows) r k = cell_at cv r k.
Proof.
  unfold cell_at, _ensure_rows; cbn [canvas_lines].
  destruct (Nat.lt_ge_cases r (length (canvas_lines cv))) as [Hlt|Hge].
  - now rewrite lookup_app_l.
  - rewrite lookup_app_r by exact Hge.
    rewrite (proj2 (lookup_ge_None (canvas_lines cv) r) Hge).
    destruct (replicate _ _ !! _) as [row|] eqn:H; [|reflexivity].
    apply lookup_replicate in H as [-> _]. apply blank_row_cell.
Qed.

Lemma set_cell_cells cv r c ch cv' :
  canvas_ok cv ->
  0 <= r < Z.of_nat (length (canvas_lines cv)) -> 0 <= c < canvas_W cv ->
  set_cell cv r c ch = Ok cv' ->
  forall r' k,
    cell_at cv' r' k
    = if (r' =? Z.to_nat r)%nat && (k =? Z.to_nat c)%nat then ch
      else cell_at cv r' k.
Proof.
  intros Hok Hr Hc. unfold set_cell. rewrite index_in_range by exact Hr.
  cbn [bind]. intros [= <-] r' k. unfold cell_at; cbn [canvas_lines].
  rewrite list_lookup_alter.
  destruct (Nat.eqb_spec r' (Z.to_nat r)) as [->|Hne]; cbn [andb].
  - destruct (decide (Z.to_nat r = Z.to_nat r)) as [_|]; [|congruence].
    destruct (canvas_lines cv !! Z.to_nat r) as [row|] eqn:Hrow.
    + cbn. assert (Hlen : length row = Z.to_nat (canvas_W cv)).
      { unfold canvas_ok in Hok. rewrite Forall_lookup in Hok. eauto. }
      destruct (Nat.eqb_spec k (Z.to_nat c)) as [->|Hk].
      * rewrite list_lookup_insert_eq by lia. reflexivity.
      * now rewrite list_lookup_insert_ne by congruence.
    + apply lookup_ge_None in Hrow. lia.
  - destruct (decide (Z.to_nat r = r')) as [<-|_]; [congruence | reflexivity].
Qed.

Lemma write_chars_cells s : forall cv r c cv',
  canvas_ok cv ->
  0 <= r < Z.of_nat (length (canvas_lines cv)) ->
  write_chars cv r c s = Ok cv' ->
  forall r' k, (k < Z.to_nat (canvas_W cv))%nat ->
    cell_at cv' r' k
    = default (cell_at cv r' k)
        (if (r' =? Z.to_nat r)%nat && (c <=? Z.of_nat k)
            && (Z.of_nat k <? c + Z.of_nat (length s))
         then s !! Z.to_nat (Z.of_nat k - c) else None).
Proof.
  induction s as [|ch s IH]; intros cv r c cv' Hok Hr; cbn [write_chars].
  - intros [= <-] r' k Hk. destruct (_ && _ && _); reflexivity.
  - destruct ((0 <=? c) && (c <? canvas_W cv)) eqn:Hin.
    + apply andb_true_iff in Hin as [H0 H1]. apply Z.leb_le in H0.
      apply Z.ltb_lt in H1.
      destruct (set_cell cv r c ch) as [cv1|e] eqn:Hset; cbn [bind]; [|discriminate].
      destruct (set_cell_ok _ _ _ _ _ Hok Hset) as (Hok1 & HW1 & HL1).
      intros Hw r' k Hk.
      rewrite (IH cv1 r (c + 1) cv' Hok1) by (rewrite ?HL1, ?HW1; auto).
      rewrite (set_cell_cells _ _ _ _ _ Hok Hr (conj H0 H1) Hset).
      assert (Hlen : Z.of_nat (length (ch :: s)) = Z.of_nat (length s) + 1)
        by (cbn [length]; lia).
      rewrite Hlen.
      destruct (Nat.eqb_spec r' (Z.to_nat r)); cbn [andb]; [|reflexivity].
      destruct (Nat.eqb_spec k (Z.to_nat c));
        destruct (Z.leb_spec (c + 1) (Z.of_nat k));
        destruct (Z.ltb_spec (Z.of_nat k) (c + 1 + Z.of_nat (length s)));
        destruct (Z.leb_spec c (Z.of_nat k));
        destruct (Z.ltb_spec (Z.of_nat k) (c + (Z.of_nat (length s) + 1)));
        cbn [andb default]; try lia; try reflexivity.
      * replace (Z.to_nat (Z.of_nat k - c)) with 0%nat by lia. reflexivity.
      * replace (Z.to_nat (Z.of_nat k - c))
          with (S (Z.to_nat (Z.of_nat k - (c + 1)))) by lia. reflexivity.
    + cbn [bind]. intros Hw r' k Hk.
      rewrite (IH cv r (c + 1) cv' Hok Hr Hw r' k Hk).
      assert (Hlen : Z.of_nat (length (ch :: s)) = Z.of_nat (length s) + 1)
        by (cbn [length]; lia).
      rewrite Hlen.
      apply andb_false_iff in Hin.
      assert (Hkc : Z.of_nat k <> c).
      { destruct Hin as [H|H]; [apply Z.leb_gt in H | apply Z.ltb_ge in H]; lia. }
      destruct (Nat.eqb_spec r' (Z.to_nat r)); cbn [andb]; [|reflexivity].
      destruct (Z.leb_spec (c + 1) (Z.of_nat k));
        destruct (Z.ltb_spec (Z.of_nat k) (c + 1 + Z.of_nat (length s)));
        destruct (Z.leb_spec c (Z.of_nat k));
        destruct (Z.ltb_spec (Z.of_nat k) (c + (Z.of_nat (length s) + 1)));
        cbn [andb default]; try lia; try reflexivity.
      replace (Z.to_nat (Z.of_nat k - c))
        with (S (Z.to_nat (Z.of_nat k - (c + 1)))) by lia. reflexivity.
Qed.

End CanvasCells.

Lemma draw_rows_cells rows : forall cv r left_col cv',
  canvas_ok cv -> 0 <= r ->
  draw_rows cv r left_col rows = Ok cv' ->
  forall r' k, (k < Z.to_nat (canvas_W cv))%nat ->
    cell_at cv' r' k
    = default (cell_at cv r' k) (drawn_at (Z.to_nat r) left_col rows r' k).
Proof.
  induction rows as [|s rows IH]; intros cv r left_col cv' Hok Hr; cbn [draw_rows].
  - intros [= <-] r' k _. unfold drawn_at.
    destruct (Z.to_nat r <=? r')%nat; reflexivity.
  - destruct (write_chars (_ensure_rows cv (r + 1)) r left_col (chars s))
      as [cv1|e] eqn:H1; cbn [bind]; [|discriminate].
    pose proof (ensure_rows_ok cv (r + 1) Hok) as Hok0.
    pose proof (ensure_rows_length cv (r + 1)) as Hlen0.
    destruct (write_chars_ok _ _ _ _ _ Hok0 H1) as (Hok1 & HW1 & _).
    intros H2 r' k Hk.
    assert (Hk1 : (k < Z.to_nat (canvas_W cv1))%nat) by (rewrite HW1; exact Hk).
    assert (Hr1 : 0 <= r + 1) by lia.
    assert (Hr0 : 0 <= r < Z.of_nat (length (canvas_lines (_ensure_rows cv (r + 1)))))
      by lia.
    rewrite (IH cv1 (r + 1) left_col cv' Hok1 Hr1 H2 r' k Hk1).
    rewrite (write_chars_cells _ _ _ _ _ Hok0 Hr0 H1 r' k Hk).
    rewrite ensure_rows_cells, length_chars. unfold drawn_at. fold (len s).
    replace (Z.to_nat (r + 1)) with (S (Z.to_nat r)) by lia.
    destruct (Nat.lt_trichotomy r' (Z.to_nat r)) as [Hlt|[->|Hgt]].
    + rewrite (proj2 (Nat.leb_gt (S (Z.to_nat r)) r')) by lia.
      rewrite (proj2 (Nat.leb_gt (Z.to_nat r) r')) by lia.
      rewrite (proj2 (Nat.eqb_neq r' (Z.to_nat r))) by lia. reflexivity.
    + rewrite (proj2 (Nat.leb_gt (S (Z.to_nat r)) (Z.to_nat r))) by lia.
      rewrite Nat.leb_refl, Nat.eqb_refl, Nat.sub_diag. cbn [andb default].
      change ((s :: rows) !! 0%nat) with (Some s). reflexivity.
    + rewrite (proj2 (Nat.leb_le (S (Z.to_nat r)) r')) by lia.
      rewrite (proj2 (Nat.leb_le (Z.to_nat r) r')) by lia.
      rewrite (proj2 (Nat.eqb_neq r' (Z.to_nat r))) by lia. cbn [andb default].
      replace (r' - Z.to_nat r)%nat with (S (r' - S (Z.to_nat r))) by lia.
      reflexivity.
Qed.

(** X4: drawing changes exactly the cells its lines cover.  Line [i] of a
    text block or of an ASCII image lands on row [top_row + i], from
    column [left_col] on; characters falling left of column 0 or right of
    column [W - 1] are dropped; every other cell keeps what it showed
    (blank, where the row is new).  A later drawing therefore overwrites
    an earlier one cell by cell. *)
Theorem drawing_writes_covered_cells (E : Env) (cv cv' : TermCanvas)
  (top_row left_col : Z) :
  canvas_ok cv -> 0 <= top_row ->
  (forall width_cols text bold,
     draw_text_block E cv top_row left_col width_cols text bold = Ok cv' ->
     forall r k, (k < Z.to_nat (canvas_W cv))%nat ->
       cell_at cv' r k
       = default (cell_at cv r k)
           (drawn_at (Z.to_nat top_row) left_col
              (if (width_cols <=? 5) || negb (nonempty text) then []
               else map (painted_line width_cols bold)
                      (wrapped_lines E width_cols text)) r k))
  /\ (forall ascii_art max_w,
        draw_ascii_image cv top_row left_col ascii_art max_w = Ok cv' ->
        forall r k, (k < Z.to_nat (canvas_W cv))%nat ->
          cell_at cv' r k
          = default (cell_at cv r k)
              (drawn_at (Z.to_nat top_row) left_col
                 (if negb (nonempty ascii_art) then []
                  else map (upto max_w) (splitlines ascii_art)) r k)).
Proof.
  intros Hok Htop. split.
  - intros width_cols text bold. unfold draw_text_block.
    destruct ((width_cols <=? 5) || negb (nonempty text)).
    + intros [= <-] r k _. unfold drawn_at.
      destruct (Z.to_nat top_row <=? r)%nat; reflexivity.
    + intros H r k Hk. now apply (draw_rows_cells _ _ _ _ _ Hok Htop H).
  - intros ascii_art max_w. unfold draw_ascii_image.
    destruct (negb (nonempty ascii_art)).
    + intros [= <-] r k _. unfold drawn_at.
      destruct (Z.to_nat top_row <=? r)%nat; reflexivity.
    + intros H r k Hk. now apply (draw_rows_cells _ _ _ _ _ Hok Htop H).
Qed.

(** A word drawn at the right edge is clipped; the cells beside it stay
    blank. *)
Lemma drawing_writes_covered_cells_witness :
  exists cv',
    draw_text_block (Double.env [] []) (TermCanvas_init 20) 1 18 8 "Hello" false
    = Ok cv'
    /\ cell_at cv' 1 18 = "H"%char /\ cell_at cv' 1 19 = "e"%char
    /\ cell_at cv' 1 17 = space /\ cell_at cv' 0 18 = space.
Proof.
  destruct (draw_text_block (Double.env [] []) (TermCanvas_init 20) 1 18 8
              "Hello" false) as [cv'|e] eqn:H;
    [|vm_compute in H; discriminate].
  exists cv'. split; [reflexivity|].
  destruct (drawing_writes_covered_cells (Double.env [] []) (TermCanvas_init 20)
              cv' 1 18) as [Htext _]; [constructor | lia |].
  pose proof (Htext 8 "Hello"%string false H) as Hc.
  repeat split; rewrite Hc by (vm_compute; lia); vm_compute; reflexivity.
Defined.

(** ** Rendering the canvas *)

Section Render.

Lemma lstrip_by_spec (p : ascii -> bool) (l : list ascii) :
  exists head,
    l = head ++ lstrip_by p l
    /\ Forall (fun c => p c = true) head
    /\ match lstrip_by p l with
       | c :: _ => p c = false
       | [] => True
       end.
Proof.
  induction l as [|c l (head & Hl & Hh & Hf)]; cbn [lstrip_by].
  - exists []. repeat split; constructor.
  - destruct (p c) eqn:Hc.
    + exists (c :: head). split; [cbn; now f_equal|]. split; [now constructor | exact Hf].
    + exists []. split; [reflexivity|]. split; [constructor | exact Hc].
Qed.

Lemma rstrip_by_spec (p : ascii -> bool) (l : list ascii) :
  exists tail,
    l = rstrip_by p l ++ tail
    /\ Forall (fun c => p c = true) tail
    /\ match last (rstrip_by p l) with
       | Some c => p c = false
       | None => True
       end.
Proof.
  unfold rstrip_by.
  destruct (lstrip_by_spec p (rev l)) as (head & Hl & Hh & Hf).
  exists (rev head). split; [|split].
  - rewrite <- rev_app_distr, <- Hl. now rewrite rev_involutive.
  - now apply Forall_rev.
  - destruct (lstrip_by p (rev l)) as [|c rest]; [exact I|].
    cbn [rev]. now rewrite last_snoc.
Qed.

End Render.

(** X5: [render] gives one line per canvas row, joined by newlines; each
    line is its row without the trailing whitespace: the row is the line
    followed by whitespace only, and a line that is not empty does not
    end in whitespace.  On a canvas whose rows have [W] cells no line is
    longer than [W]. *)
Theorem render_trims_rows (cv : TermCanvas) :
  exists lines : list string,
    TermCanvas_render cv = join nl lines
    /\ Forall2
         (fun row line =>
            exists tail,
              row = chars line ++ tail
              /\ Forall (fun c => isspace c = true) tail
              /\ match last (chars line) with
                 | Some c => isspace c = false
                 | None => True
                 end)
         (canvas_lines cv) lines
    /\ (canvas_ok cv -> Forall (fun l => len l <= Z.of_nat (Z.to_nat (canvas_W cv))) lines).
Proof.
  exists (map (fun row => rstrip (str row)) (canvas_lines cv)).
  split; [reflexivity|].
  assert (Hrow : forall row,
             exists tail,
               row = chars (rstrip (str row)) ++ tail
               /\ Forall (fun c => isspace c = true) tail
               /\ match last (chars (rstrip (str row))) with
                  | Some c => isspace c = false
                  | None => True
                  end).
  { intros row. unfold rstrip. rewrite !str_chars. apply rstrip_by_spec. }
  split.
  - induction (canvas_lines cv) as [|row rows IH]; constructor; [apply Hrow | exact IH].
  - unfold canvas_ok. intros Hok. apply Forall_map.
    eapply Forall_impl; [exact Hok|]. intros row Hlen. cbn beta.
    destruct (Hrow row) as (tail & Heq & _).
    unfold len. rewrite <- length_chars.
    apply (f_equal (@length ascii)) in Heq. rewrite length_app in Heq.
    cbn beta in Hlen. lia.
Qed.

Lemma render_trims_rows_witness :
  exists lines : list string,
    TermCanvas_render
      {| canvas_W := 6; canvas_lines := [chars "ab  c "; chars "      "] |}
    = join nl lines
    /\ Forall (fun l => len l <= 6) lines.
Proof.
  destruct (render_trims_rows
              {| canvas_W := 6; canvas_lines := [chars "ab  c "; chars "      "] |})
    as (lines & H1 & _ & H3).
  exists lines. split; [exact H1|]. apply H3. repeat constructor.
Defined.

(** ** The registries of the fallback renderer *)

Section FallbackRegistries.

Variables (E : Env) (C : Config).

Lemma in_list_decide (x : string) (l : list string) :
  in_list x l = bool_decide (x ∈ l).
Proof.
  unfold in_list. induction l as [|y l IH]; cbn [existsb].
  - symmetry. apply bool_decide_eq_false_2. apply not_elem_of_nil.
  - rewrite IH. destruct (String.eqb_spec x y) as [->|Hne]; cbn [orb].
    + symmetry. apply bool_decide_eq_true_2. apply list_elem_of_here.
    + destruct (bool_decide_reflect (x ∈ l)) as [Hin|Hnin]; symmetry.
      * apply bool_decide_eq_true_2. now apply list_elem_of_further.
      * apply bool_decide_eq_false_2. intros [?|?]%elem_of_cons; tauto.
Qed.

Lemma seen_fold_NoDup (l : list string) : forall acc,
  NoDup acc ->
  NoDup (fold_left (fun acc u => if bool_decide (u ∈ acc) then acc else acc ++ [u])
           l acc).
Proof.
  induction l as [|u l IH]; intros acc Hnd; cbn [fold_left]; [exact Hnd|].
  apply IH. destruct (bool_decide_reflect (u ∈ acc)) as [Hin|Hnin]; [exact Hnd|].
  apply NoDup_app. split; [exact Hnd|]. split; [|apply NoDup_singleton].
  intros x Hx Hx'. apply list_elem_of_singleton in Hx'. now subst.
Qed.

Lemma first_seen_NoDup (l : list string) : NoDup (first_seen l).
Proof. apply seen_fold_NoDup. constructor. Qed.

Lemma fallback_imgs_fold (cur : string) (l : list string) : forall acc,
  fold_left
    (fun imgs src =>
       if negb (nonempty src) then imgs
       else
         let src := urldefrag E (urljoin E cur src) in
         if in_list src imgs then imgs else imgs ++ [src]) l acc
  = fold_left (fun acc u => if bool_decide (u ∈ acc) then acc else acc ++ [u])
      (map (resolve E cur) (List.filter nonempty l)) acc.
Proof.
  induction l as [|s l IH]; intros acc; [reflexivity|].
  cbn [fold_left List.filter]. rewrite IH.
  destruct (nonempty s); cbn [negb map fold_left]; [|reflexivity].
  cbn zeta. now rewrite in_list_decide.
Qed.

Lemma fallback_links_fold (S : Session) (cur : string) (l : list (string * string)) :
  forall acc,
  fold_left
    (fun links_ (a : string * string) =>
       let '(href, t) := a in
       if negb (nonempty href) then links_
       else
         let href := urldefrag E (urljoin E cur href) in
         if filter_icons S && _is_icon_link E href t then links_
         else if in_list href links_ then links_ else links_ ++ [href]) l acc
  = fold_left (fun acc u => if bool_decide (u ∈ acc) then acc else acc ++ [u])
      (map (fun a => resolve E cur a.1) (List.filter (listed_anchor E S cur) l)) acc.
Proof.
  induction l as [|[href t] l IH]; intros acc; [reflexivity|].
  cbn [fold_left List.filter]. rewrite IH.
  unfold listed_anchor at 2. cbn [fst snd]. unfold resolve at 3.
  destruct (nonempty href); cbn [negb andb map fold_left]; [|reflexivity].
  cbn zeta.
  destruct (filter_icons S && _is_icon_link E (urldefrag E (urljoin E cur href)) t);
    cbn [negb map fold_left fst]; [reflexivity|].
  unfold resolve at 2. now rewrite in_list_decide.
Qed.

End FallbackRegistries.

(** X7: when the fallback renderer returns, the session's image list
    holds the resolved [src] of every [img] that has one, and its link
    list the resolved [href] of every anchor that has one and passes the
    icon filter, each in the order of first occurrence and without
    repetition; the session's URL is the response's final URL and its
    text is the returned text. *)
Theorem fallback_registries (E : Env) (C : Config) (S : Session) (url : string)
  (r : Response) (text : string) (S' : Session) :
  requests_get E url = Ok r ->
  _render_fallback_url E C S url = Ok (text, S') ->
  let soup := parse_html E (r_content r) (r_text r) in
  let base := r_url r in
  images S' = first_seen (map (resolve E base) (List.filter nonempty (soup_imgs soup)))
  /\ links S'
     = first_seen (map (fun a => resolve E base a.1)
                     (List.filter (listed_anchor E S base) (soup_anchors soup)))
  /\ NoDup (images S') /\ NoDup (links S')
  /\ current_url S' = Some base
  /\ full_text S' = text.
Proof.
  intros Hget Hrun soup base. unfold _render_fallback_url in Hrun.
  rewrite Hget in Hrun. cbn [bind] in Hrun.
  rewrite fallback_imgs_fold, fallback_links_fold in Hrun.
  fold soup base in Hrun. fold (first_seen (map (resolve E base) (List.filter nonempty (soup_imgs soup)))) in Hrun.
  fold (first_seen (map (fun a => resolve E base a.1)
                      (List.filter (listed_anchor E S base) (soup_anchors soup)))) in Hrun.
  match type of Hrun with
  | bind ?m _ = _ => destruct m as [t|e]; cbn [bind] in Hrun; [|discriminate]
  end.
  injection Hrun as <- <-. cbn [images links current_url full_text].
  repeat split; auto using first_seen_NoDup.
Qed.

(** The sample document: the image met again and the second link to the
    same target are listed once, the logo link and the references without
    target are left out. *)
Lemma fallback_registries_witness :
  exists text S',
    _render_fallback_url Sample.env default_config (Double.session 80) Double.home
    = Ok (text, S')
    /\ images S' = ["http://a/a.png"; "http://a/b.png"]
    /\ links S' = ["http://a/more"].
Proof.
  destruct (fallback_raises_iff Sample.env default_config (Double.session 80) Double.home)
    as [_ Hret].
  destruct Hret as [[text S'] Hrun]; [eexists; reflexivity|].
  exists text, S'. split; [exact Hrun|].
  destruct (fallback_registries Sample.env default_config (Double.session 80)
              Double.home Sample.response text S' eq_refl Hrun) as (Hi & Hl & _).
  split; [rewrite Hi | rewrite Hl]; vm_compute; reflexivity.
Defined.

(** ** The session after a page load *)

Section SessionAfterLoad.

Variables (E : Env) (C : Config).

Lemma push_history_settings (S : Session) :
  same_settings S (push_history S)
  /\ current_url (push_history S) = current_url S.
Proof.
  unfold same_settings, push_history. destruct (current_url S) as [u|] eqn:Hu.
  - destruct (nonempty u); cbn; rewrite ?Hu; repeat split; reflexivity.
  - rewrite Hu; repeat split; reflexivity.
Qed.

Lemma fallback_session (S : Session) (url text : string) (S' : Session) :
  _render_fallback_url E C S url = Ok (text, S') ->
  full_text S' = text
  /\ (exists u, current_url S' = Some u)
  /\ NoDup (links S') /\ NoDup (images S')
  /\ same_settings S S'
  /\ history S' = history S /\ future S' = future S.
Proof.
  intros Hrun. unfold _render_fallback_url in Hrun.
  destruct (requests_get E url) as [r|e]; cbn [bind] in Hrun; [|discriminate].
  rewrite fallback_imgs_fold, fallback_links_fold in Hrun.
  match type of Hrun with
  | bind ?m _ = _ => destruct m as [t|e]; cbn [bind] in Hrun; [|discriminate]
  end.
  injection Hrun as <- <-. unfold same_settings.
  cbn [images links current_url full_text history future user_agent width js_mode
         auto_image filter_icons].
  repeat split; eauto; apply seen_fold_NoDup; constructor.
Qed.

End SessionAfterLoad.

(** X8: a page load that returns leaves a session whose text is the
    returned text and whose URL is set, whose link and image lists hold no
    URL twice, and whose settings are those it started with; the page
    shown before, if any, is appended to the history and the forward list
    is emptied, and without such a page both lists stay as they were. *)
Theorem load_url_session (E : Env) (C : Config) (S : Session) (url text : string)
  (S' : Session) :
  load_url E C S url = Ok (text, S') ->
  full_text S' = text
  /\ (exists u, current_url S' = Some u)
  /\ NoDup (links S') /\ NoDup (images S')
  /\ same_settings S S'
  /\ match current_url S with
     | Some u =>
         if nonempty u then history S' = history S ++ [u] /\ future S' = []
         else history S' = history S /\ future S' = future S
     | None => history S' = history S /\ future S' = future S
     end.
Proof.
  intros Hrun.
  assert (Hhist : match current_url S with
                  | Some u =>
                      if nonempty u
                      then history (push_history S) = history S ++ [u]
                           /\ future (push_history S) = []
                      else history (push_history S) = history S
                           /\ future (push_history S) = future S
                  | None => history (push_history S) = history S
                            /\ future (push_history S) = future S
                  end).
  { unfold push_history. destruct (current_url S) as [u|]; [|split; reflexivity].
    destruct (nonempty u); split; reflexivity. }
  destruct (push_history_settings S) as [Hset _].
  assert (Hgoal : full_text S' = text
                  /\ (exists u, current_url S' = Some u)
                  /\ NoDup (links S') /\ NoDup (images S')
                  /\ same_settings (push_history S) S'
                  /\ history S' = history (push_history S)
                  /\ future S' = future (push_history S)).
  { unfold load_url in Hrun. cbv zeta in Hrun.
    destruct (js_mode (push_history S) && HAVE_PW E);
      [|now apply (fallback_session E C _ url)].
    destruct (snapshot_dom E url (user_agent (push_history S))) as [[nodes final_url]|e];
      [|now apply (fallback_session E C _ url)].
    destruct nodes as [|n nodes]; [now apply (fallback_session E C _ url)|].
    destruct (composite E C (push_history S) url final_url (n :: nodes)) as [st|e]
      eqn:Hc; cbn [bind] in Hrun; [|discriminate].
    injection Hrun as <- <-.
    pose proof (run_loop_Inv E C _ _ _ _ (Inv_init (width (push_history S)))
                  (composite_run _ _ _ _ _ _ _ Hc)) as HI.
    unfold same_settings.
    cbn [images links current_url full_text history future user_agent width js_mode
           auto_image filter_icons].
    repeat split; eauto; apply HI. }
  destruct Hgoal as (H1 & H2 & H3 & H4 & H5 & H6 & H7).
  split; [exact H1|]. split; [exact H2|]. split; [exact H3|]. split; [exact H4|].
  split.
  - unfold same_settings in *. intuition congruence.
  - rewrite H6, H7. exact Hhist.
Qed.

(** Following a page from a session that shows another one. *)
Lemma load_url_session_witness :
  exists text S',
    load_url (Double.serving Double.page_gallery) default_config
      (Sample.visiting "http://a/prev") Double.home = Ok (text, S')
    /\ history S' = ["http://a/first"; "http://a/prev"]
    /\ future S' = []
    /\ current_url S' = Some Double.home.
Proof.
  assert (Hret : returns (load_url (Double.serving Double.page_gallery) default_config
                            (Sample.visiting "http://a/prev") Double.home)).
  { eexists. vm_compute. reflexivity. }
  destruct Hret as [[text S'] Hrun]. exists text, S'. split; [exact Hrun|].
  destruct (load_url_session _ _ _ _ _ _ Hrun) as (_ & _ & _ & _ & _ & Hh & Hf).
  split; [exact Hh|]. split; [exact Hf|].
  vm_compute in Hrun. now injection Hrun as _ <-.
Defined.
